(** * The schedulable job entity of [lib/apscheduler/job.py]

    A shallow embedding of class [Job]: its validated mutation
    ([_modify]), its run-time enumeration ([_get_run_times]) and its
    pickling hooks ([__getstate__], [__setstate__]), followed by the
    properties the specification states about them.

    Python objects are dynamically typed, so values live in one universe
    [pyval]; an instance of [Job] is its table of slots, a finite map from
    slot names to values in which an absent key is a slot that was never
    assigned (reading it raises [AttributeError]).  Methods are
    computations in a state-and-exception monad over that table: a raised
    exception carries the table as it was at the point of the raise, so
    that "nothing was written before the failure" is a statement about the
    code and not about the encoding. *)

From Stdlib Require Import ZArith Lia.
From stdpp Require Import gmap strings list fin_maps sorting.

Local Open Scope string_scope.
Local Open Scope list_scope.
Local Open Scope Z_scope.

(** ** Python values *)

(** What [isinstance] against the abstract base classes, [callable] and
    [bool] answer for an instance of a class the model does not know. *)
Record abc_flags : Type := {
  abc_iterable : bool;
  abc_mapping : bool;
  abc_callable : bool;
  abc_truthy : bool
}.

(** Timestamps are aware [datetime]s, counted in microseconds.  A trigger
    is an instance of a [BaseTrigger] subclass and is represented by its
    [get_next_fire_time(previous_fire_time, now)] method, which answers a
    [datetime] or [None]. *)
#[warnings="-register-all"]
Inductive pyval : Type :=
| VNone
| VBool (b : bool)
| VInt (n : Z)
| VStr (s : string)
| VTuple (items : list pyval)
| VList (items : list pyval)
| VDict (items : list (pyval * pyval))
| VDatetime (t : Z)
| VFunc (f : Z)
| VTrigger (get_next_fire_time : Z -> Z -> option Z)
| VScheduler (timezone : pyval)
| VObject (cls : abc_flags) (oid : Z).

(** [isinstance(v, six.string_types)], which is [isinstance(v, str)]. *)
Definition is_str (v : pyval) : bool :=
  match v with VStr _ => true | _ => false end.

(** [isinstance(v, six.integer_types)]; [bool] is a subclass of [int]. *)
Definition is_int (v : pyval) : bool :=
  match v with VInt _ | VBool _ => true | _ => false end.

Definition int_value (v : pyval) : Z :=
  match v with
  | VInt n => n
  | VBool true => 1
  | _ => 0
  end.

(** [isinstance(v, collections.abc.Iterable)]. *)
Definition is_iterable (v : pyval) : bool :=
  match v with
  | VStr _ | VTuple _ | VList _ | VDict _ => true
  | VObject c _ => abc_iterable c || abc_mapping c
  | _ => false
  end.

(** [isinstance(v, collections.abc.Mapping)]. *)
Definition is_mapping (v : pyval) : bool :=
  match v with
  | VDict _ => true
  | VObject c _ => abc_mapping c
  | _ => false
  end.

Definition callable (v : pyval) : bool :=
  match v with
  | VFunc _ => true
  | VObject c _ => abc_callable c
  | _ => false
  end.

(** [isinstance(v, BaseTrigger)]. *)
Definition is_trigger (v : pyval) : bool :=
  match v with VTrigger _ => true | _ => false end.

Definition is_none (v : pyval) : bool :=
  match v with VNone => true | _ => false end.

Definition nonempty {A : Type} (l : list A) : bool :=
  match l with [] => false | _ => true end.

(** Truth value testing, [bool(v)]. *)
Definition truthy (v : pyval) : bool :=
  match v with
  | VNone => false
  | VBool b => b
  | VInt n => negb (n =? 0)
  | VStr s => negb (String.eqb s "")
  | VTuple l | VList l => nonempty l
  | VDict l => nonempty l
  | VObject c _ => abc_truthy c
  | VDatetime _ | VFunc _ | VTrigger _ | VScheduler _ => true
  end.

(** ** Exceptions and the method monad *)

Inductive exn : Type :=
| TypeError (msg : string)
| ValueError (msg : string)
| AttributeError (msg : string)
| KeyError (key : string)
| OtherError (cls : string).

Inductive outcome (A : Type) : Type :=
| Ok (a : A)
| Raise (e : exn).
Arguments Ok {A} a.
Arguments Raise {A} e.

Definition is_raise {A : Type} (o : outcome A) : bool :=
  match o with Raise _ => true | Ok _ => false end.

(** The slots of one instance. *)
Abbreviation Job := (gmap string pyval).

Definition M (A : Type) : Type := Job -> outcome A * Job.

#[global] Instance M_ret : MRet M := fun A a self => (Ok a, self).

#[global] Instance M_bind : MBind M := fun A B k m self =>
  match m self with
  | (Ok a, self') => k a self'
  | (Raise e, self') => (Raise e, self')
  end.

Definition raise {A : Type} (e : exn) : M A := fun self => (Raise e, self).

(** The outcome of a call into code that lives outside the class. *)
Definition lift {A : Type} (r : exn + A) : M A :=
  match r with
  | inl e => raise e
  | inr a => mret a
  end.

Definition __slots__ : list string :=
  ["_scheduler"; "_jobstore_alias"; "id"; "trigger"; "executor"; "func";
   "func_ref"; "args"; "kwargs"; "name"; "misfire_grace_time"; "coalesce";
   "max_instances"; "next_run_time"].

Definition is_slot (name : string) : bool :=
  existsb (String.eqb name) __slots__.

(** [hasattr(self, name)] *)
Definition hasattr (name : string) : M bool :=
  fun self => (Ok (bool_decide (is_Some (self !! name))), self).

(** [self.name] *)
Definition getattr (name : string) : M pyval :=
  fun self =>
    match self !! name with
    | Some v => (Ok v, self)
    | None => (Raise (AttributeError name), self)
    end.

(** [setattr(self, name, value)]; a class with [__slots__] has no
    instance dictionary and refuses any other name. *)
Definition setattr (name : string) (value : pyval) : M unit :=
  fun self =>
    if is_slot name then (Ok tt, <[name := value]> self)
    else (Raise (AttributeError name), self).

(** ** Run-time enumeration, [Job._get_run_times] *)

(** [next_run_time <= now] with [now] a [datetime]. *)
Definition datetime_le (v : pyval) (now : Z) : M bool :=
  match v with
  | VDatetime t => mret (t <=? now)
  | _ => raise (TypeError "'<=' not supported")
  end.

(** [trigger.get_next_fire_time(previous, now)] *)
Definition call_get_next_fire_time (trigger : pyval) (previous now : Z) : M pyval :=
  match trigger with
  | VTrigger f =>
      mret (match f previous now with Some t => VDatetime t | None => VNone end)
  | _ => raise (AttributeError "get_next_fire_time")
  end.

Definition datetime_value (v : pyval) : Z :=
  match v with VDatetime t => t | _ => 0 end.

(** The [while] loop of [_get_run_times], with its two local variables.
    [fuel] bounds the number of iterations; the answer [None] means that
    the bound was reached with the loop still running.  The loop's final
    locals are returned together. *)
Fixpoint run_times_loop (fuel : nat) (now : Z)
    (run_times : list pyval) (next_run_time : pyval)
    : M (option (list pyval * pyval)) :=
  match fuel with
  | O => mret None
  | S fuel' =>
      if truthy next_run_time then
        due ← datetime_le next_run_time now;
        if due : bool then
          trigger ← getattr "trigger";
          next ← call_get_next_fire_time trigger (datetime_value next_run_time) now;
          run_times_loop fuel' now (run_times ++ [next_run_time]) next
        else mret (Some (run_times, next_run_time))
      else mret (Some (run_times, next_run_time))
  end.

Definition _get_run_times (fuel : nat) (now : Z) : M (option (list pyval)) :=
  next_run_time ← getattr "next_run_time";
  locals ← run_times_loop fuel now [] next_run_time;
  mret (fst <$> locals).

(** ** Collaborators

    [Job] calls five helpers of [apscheduler.util].  Their code is not
    part of the class; each is a function that answers a value or raises. *)
Class Util : Type := {
  ref_to_obj : pyval -> exn + pyval;
  obj_to_ref : pyval -> exn + string;
  get_callable_name : pyval -> exn + string;
  check_callable_args : pyval -> pyval -> pyval -> exn + unit;
  convert_to_datetime : pyval -> pyval -> string -> exn + pyval
}.

(** The local variables of [_modify]: what is left of the keyword
    dictionary [changes], and the dictionary [approved] in insertion
    order. *)
Record frame : Type := {
  changes : gmap string pyval;
  approved : list (string * pyval)
}.

(** [changes.pop(key)], the dictionary part *)
Definition pop (key : string) (l : frame) : frame :=
  {| changes := delete key (changes l); approved := approved l |}.

(** [changes[key] = value] *)
Definition set_change (key : string) (value : pyval) (l : frame) : frame :=
  {| changes := <[key := value]> (changes l); approved := approved l |}.

(** [approved[key] = value]; every key is approved at most once. *)
Definition approve (key : string) (value : pyval) (l : frame) : frame :=
  {| changes := changes l; approved := approved l ++ [(key, value)] |}.

(** [key in changes] *)
Definition proposed (key : string) (l : frame) : bool :=
  bool_decide (is_Some (changes l !! key)).

(** [state[key]] *)
Definition getitem (state : gmap string pyval) (key : string) : M pyval :=
  match state !! key with
  | Some v => mret v
  | None => raise (KeyError key)
  end.

(** [v > 1], on the values of [pyval]: an [int] (a [bool] included) is
    compared; [None], strings, containers and the other values here are
    not ordered against an [int] and the comparison raises [TypeError].
    The universe has no [float]. *)
Definition gt_one (v : pyval) : M bool :=
  if is_int v then mret (1 <? int_value v)
  else raise (TypeError "'>' not supported").

(** [self._scheduler.timezone] *)
Definition scheduler_timezone : M pyval :=
  scheduler ← getattr "_scheduler";
  match scheduler with
  | VScheduler tz => mret tz
  | _ => raise (AttributeError "timezone")
  end.

Section JobMethods.

Context {U : Util}.

(** *** [Job._modify], block by block *)

(** Lines 115-121. *)
Definition modify_id (l : frame) : M frame :=
  match changes l !! "id" with
  | Some value =>
      let l := pop "id" l in
      if negb (is_str value) then raise (TypeError "id must be a nonempty string")
      else
        set ← hasattr "id";
        if set : bool then raise (ValueError "The job ID may not be changed")
        else mret (approve "id" value l)
  | None => mret l
  end.

(** [changes.pop(key) if key in changes else self.key] *)
Definition pop_or_attr (key : string) (l : frame) : M (pyval * frame) :=
  match changes l !! key with
  | Some value => mret (value, pop key l)
  | None => value ← getattr key; mret (value, l)
  end.

(** Lines 128-138: the callable and its textual reference. *)
Definition resolve_func (func : pyval) : M (pyval * pyval) :=
  if is_str func then
    obj ← lift (ref_to_obj func);
    mret (obj, func)
  else if callable func then
    match obj_to_ref func with
    | inr ref => mret (func, VStr ref)
    | inl (ValueError _) => mret (func, VNone)
    | inl e => raise e
    end
  else raise (TypeError "func must be a callable or a textual reference to one").

(** Lines 140-141. *)
Definition default_name (func : pyval) (l : frame) : M frame :=
  named ← hasattr "name";
  if negb named && is_none (default VNone (changes l !! "name")) then
    name ← lift (get_callable_name func);
    mret (set_change "name" (VStr name) l)
  else mret l.

(** Lines 123-153. *)
Definition modify_callable (l : frame) : M frame :=
  if proposed "func" l || proposed "args" l || proposed "kwargs" l then
    '(func, l) ← pop_or_attr "func" l;
    '(args, l) ← pop_or_attr "args" l;
    '(kwargs, l) ← pop_or_attr "kwargs" l;
    '(func, func_ref) ← resolve_func func;
    l ← default_name func l;
    if is_str args || negb (is_iterable args) then
      raise (TypeError "args must be a non-string iterable")
    else if is_str kwargs || negb (is_mapping kwargs) then
      raise (TypeError "kwargs must be a dict-like object")
    else
      _ ← lift (check_callable_args func args kwargs);
      mret (approve "kwargs" kwargs (approve "args" args
             (approve "func_ref" func_ref (approve "func" func l))))
  else mret l.

(** Lines 155-159. *)
Definition modify_name (l : frame) : M frame :=
  match changes l !! "name" with
  | Some value =>
      let l := pop "name" l in
      if negb (truthy value) || negb (is_str value) then
        raise (TypeError "name must be a nonempty string")
      else mret (approve "name" value l)
  | None => mret l
  end.

(** Lines 161-165. *)
Definition modify_misfire_grace_time (l : frame) : M frame :=
  match changes l !! "misfire_grace_time" with
  | Some value =>
      let l := pop "misfire_grace_time" l in
      if negb (is_none value) && (negb (is_int value) || (int_value value <=? 0)) then
        raise (TypeError "misfire_grace_time must be either None or a positive integer")
      else mret (approve "misfire_grace_time" value l)
  | None => mret l
  end.

(** Lines 167-169. *)
Definition modify_coalesce (l : frame) : M frame :=
  match changes l !! "coalesce" with
  | Some value =>
      let l := pop "coalesce" l in
      mret (approve "coalesce" (VBool (truthy value)) l)
  | None => mret l
  end.

(** Lines 171-175. *)
Definition modify_max_instances (l : frame) : M frame :=
  match changes l !! "max_instances" with
  | Some value =>
      let l := pop "max_instances" l in
      if negb (is_int value) || (int_value value <=? 0) then
        raise (TypeError "max_instances must be a positive integer")
      else mret (approve "max_instances" value l)
  | None => mret l
  end.

(** Lines 177-182. *)
Definition modify_trigger (l : frame) : M frame :=
  match changes l !! "trigger" with
  | Some trigger =>
      let l := pop "trigger" l in
      if negb (is_trigger trigger) then
        raise (TypeError "Expected a trigger instance")
      else mret (approve "trigger" trigger l)
  | None => mret l
  end.

(** Lines 184-188. *)
Definition modify_executor (l : frame) : M frame :=
  match changes l !! "executor" with
  | Some value =>
      let l := pop "executor" l in
      if negb (is_str value) then raise (TypeError "executor must be a string")
      else mret (approve "executor" value l)
  | None => mret l
  end.

(** Lines 190-192. *)
Definition modify_next_run_time (l : frame) : M frame :=
  match changes l !! "next_run_time" with
  | Some value =>
      let l := pop "next_run_time" l in
      tz ← scheduler_timezone;
      converted ← lift (convert_to_datetime value tz "next_run_time");
      mret (approve "next_run_time" converted l)
  | None => mret l
  end.

(** Lines 194-195. *)
Definition reject_leftovers (l : frame) : M frame :=
  if nonempty (map_to_list (changes l)) then
    raise (AttributeError "The following are not modifiable attributes of Job")
  else mret l.

(** Everything before the final loop: lines 113-195. *)
Definition validate (proposal : gmap string pyval) : M frame :=
  l ← modify_id {| changes := proposal; approved := [] |};
  l ← modify_callable l;
  l ← modify_name l;
  l ← modify_misfire_grace_time l;
  l ← modify_coalesce l;
  l ← modify_max_instances l;
  l ← modify_trigger l;
  l ← modify_executor l;
  l ← modify_next_run_time l;
  reject_leftovers l.

(** Lines 197-198. *)
Fixpoint commit (items : list (string * pyval)) : M unit :=
  match items with
  | [] => mret tt
  | (key, value) :: rest => _ ← setattr key value; commit rest
  end.

Definition _modify (proposal : gmap string pyval) : M unit :=
  l ← validate proposal;
  commit (approved l).

(** *** [Job.__init__]

    [uuid4_hex] is the value [uuid4().hex] would produce. *)
Definition __init__ (scheduler id : pyval) (kwargs : gmap string pyval)
    (uuid4_hex : string) : M unit :=
  _ ← setattr "_scheduler" scheduler;
  _ ← setattr "_jobstore_alias" VNone;
  _modify (<["id" := if truthy id then id else VStr uuid4_hex]> kwargs).

(** *** [Job.__getstate__] *)

Definition not_serializable : exn :=
  ValueError "This Job cannot be serialized since the reference to its callable could not be determined".

Definition __getstate__ : M (gmap string pyval) :=
  func_ref ← getattr "func_ref";
  if negb (truthy func_ref) then
    _ ← getattr "func";
    raise not_serializable
  else
    id ← getattr "id";
    func_ref ← getattr "func_ref";
    trigger ← getattr "trigger";
    executor ← getattr "executor";
    args ← getattr "args";
    kwargs ← getattr "kwargs";
    name ← getattr "name";
    misfire_grace_time ← getattr "misfire_grace_time";
    coalesce ← getattr "coalesce";
    max_instances ← getattr "max_instances";
    next_run_time ← getattr "next_run_time";
    mret (list_to_map
      [("version", VInt 1); ("id", id); ("func", func_ref);
       ("trigger", trigger); ("executor", executor); ("args", args);
       ("kwargs", kwargs); ("name", name);
       ("misfire_grace_time", misfire_grace_time); ("coalesce", coalesce);
       ("max_instances", max_instances); ("next_run_time", next_run_time)]).

(** *** [Job.__setstate__] *)

(** [self.attr = state[key]] *)
Definition restore (attr key : string) (state : gmap string pyval) : M unit :=
  value ← getitem state key;
  setattr attr value.

(** Lines 226-237. *)
Definition restore_fields (state : gmap string pyval) : M unit :=
  _ ← restore "id" "id" state;
  _ ← restore "func_ref" "func" state;
  func_ref ← getattr "func_ref";
  func ← lift (ref_to_obj func_ref);
  _ ← setattr "func" func;
  _ ← restore "trigger" "trigger" state;
  _ ← restore "executor" "executor" state;
  _ ← restore "args" "args" state;
  _ ← restore "kwargs" "kwargs" state;
  _ ← restore "name" "name" state;
  _ ← restore "misfire_grace_time" "misfire_grace_time" state;
  _ ← restore "coalesce" "coalesce" state;
  _ ← restore "max_instances" "max_instances" state;
  restore "next_run_time" "next_run_time" state.

Definition version_error : exn :=
  ValueError "Job has version %s, but only version 1 can be handled".

Definition __setstate__ (state : gmap string pyval) : M unit :=
  newer ← gt_one (default (VInt 1) (state !! "version"));
  if newer : bool then raise version_error
  else restore_fields state.

End JobMethods.

(** * Vocabulary of the properties *)

(** A computation that leaves the slots alone, whatever its outcome. *)
Definition readonly {A : Type} (m : M A) : Prop :=
  forall self, (m self).2 = self.

(** The value of a local that holds a [datetime] or [None]. *)
Definition datetime_or_none (o : option Z) : pyval :=
  match o with
  | Some t => VDatetime t
  | None => VNone
  end.

(** The due times as the specification words them: start from the current
    [next_run_time]; while it is present and not after [now], record it
    and ask the trigger for the one that follows.  The last index is the
    value at which the walk stops. *)
Inductive due_chain (trig : Z -> Z -> option Z) (now : Z)
    : option Z -> list Z -> option Z -> Prop :=
| due_exhausted : due_chain trig now None [] None
| due_later (t : Z) : now < t -> due_chain trig now (Some t) [] (Some t)
| due_step (t : Z) (ts : list Z) (stop : option Z) :
    t <= now ->
    due_chain trig now (trig t now) ts stop ->
    due_chain trig now (Some t) (t :: ts) stop.

(** A trigger that never answers a time at or before its reference point. *)
Definition strictly_monotonic (trig : Z -> Z -> option Z) : Prop :=
  forall previous now t, trig previous now = Some t -> previous < t.

(** [approved.get(key)]: the value last approved under [key]. *)
Fixpoint assoc (key : string) (items : list (string * pyval)) : option pyval :=
  match items with
  | [] => None
  | (k, v) :: rest =>
      match assoc key rest with
      | Some v' => Some v'
      | None => if decide (k = key) then Some v else None
      end
  end.

Definition all_slots (items : list (string * pyval)) : Prop :=
  Forall (fun kv => is_slot kv.1 = true) items.

(** [accepted self final key value stored]: the checks [_modify] makes on
    a value proposed for [key] pass on the instance [self], and [stored] is
    what is approved for the slot.  [final] is the instance after the
    commit; only the default name looks at it, for the callable it names. *)
Inductive accepted `{Util} (self final : Job) : string -> pyval -> pyval -> Prop :=
| accepted_id (v : pyval) :
    is_str v = true -> self !! "id" = None ->
    accepted self final "id" v v
| accepted_func_ref (v obj : pyval) :
    is_str v = true -> ref_to_obj v = inr obj ->
    accepted self final "func" v obj
| accepted_func_obj (v : pyval) :
    is_str v = false -> callable v = true ->
    accepted self final "func" v v
| accepted_args (v : pyval) :
    is_str v = false -> is_iterable v = true ->
    accepted self final "args" v v
| accepted_kwargs (v : pyval) :
    is_str v = false -> is_mapping v = true ->
    accepted self final "kwargs" v v
| accepted_name (v : pyval) :
    truthy v = true -> is_str v = true ->
    accepted self final "name" v v
| accepted_name_default (obj : pyval) (name : string) :
    self !! "name" = None ->
    final !! "func" = Some obj ->
    get_callable_name obj = inr name ->
    accepted self final "name" VNone (VStr name)
| accepted_misfire_none :
    accepted self final "misfire_grace_time" VNone VNone
| accepted_misfire (v : pyval) :
    is_int v = true -> 0 < int_value v ->
    accepted self final "misfire_grace_time" v v
| accepted_coalesce (v : pyval) :
    accepted self final "coalesce" v (VBool (truthy v))
| accepted_max_instances (v : pyval) :
    is_int v = true -> 0 < int_value v ->
    accepted self final "max_instances" v v
| accepted_trigger (v : pyval) :
    is_trigger v = true ->
    accepted self final "trigger" v v
| accepted_executor (v : pyval) :
    is_str v = true ->
    accepted self final "executor" v v
| accepted_next_run_time (v tz stored : pyval) :
    self !! "_scheduler" = Some (VScheduler tz) ->
    convert_to_datetime v tz "next_run_time" = inr stored ->
    accepted self final "next_run_time" v stored.

(** The names [_modify] knows. *)
Definition modifiable : list string :=
  ["id"; "func"; "args"; "kwargs"; "name"; "misfire_grace_time"; "coalesce";
   "max_instances"; "trigger"; "executor"; "next_run_time"].

(** What the block of a single field guarantees: it never writes a slot;
    when it does not raise it has consumed its own key and no other, and
    has approved a value for it exactly when one was proposed. *)
Definition block_post `{Util} (key : string) (l : frame) (self : Job)
    (r : outcome frame * Job) : Prop :=
  match r with
  | (Raise _, self') => self' = self
  | (Ok l', self') =>
      self' = self /\
      (forall k, k <> key -> changes l' !! k = changes l !! k) /\
      changes l' !! key = None /\
      (forall k, k <> key -> assoc k (approved l') = assoc k (approved l)) /\
      (forall v, changes l !! key = Some v ->
         exists stored, assoc key (approved l') = Some stored /\
                        forall final, accepted self final key v stored) /\
      (changes l !! key = None ->
         assoc key (approved l') = assoc key (approved l)) /\
      (all_slots (approved l) -> all_slots (approved l'))
  end.

Definition field_block `{Util} (key : string) (block : frame -> M frame) : Prop :=
  forall l self, block_post key l self (block l self).

(** The textual reference recorded for a proposed [func]: the string
    itself, or what [obj_to_ref] derives, or [None]. *)
Definition reference_of `{Util} (func : pyval) : pyval :=
  if is_str func then func
  else match obj_to_ref func with
       | inr ref => VStr ref
       | inl _ => VNone
       end.

(** What the block of the callable group has approved when it ran: the
    callable, its reference, the arguments and the keyword arguments, on
    which the signature check passed; and what it did to a proposed name. *)
Definition group_post `{Util} (self : Job) (l l' : frame) : Prop :=
  exists obj ref args kwargs,
    assoc "func" (approved l') = Some obj /\
    assoc "func_ref" (approved l') = Some ref /\
    assoc "args" (approved l') = Some args /\
    assoc "kwargs" (approved l') = Some kwargs /\
    check_callable_args obj args kwargs = inr tt /\
    (forall v, changes l !! "func" = Some v ->
       ref = reference_of v /\
       forall final, accepted self final "func" v obj) /\
    (forall v, changes l !! "args" = Some v ->
       forall final, accepted self final "args" v args) /\
    (forall v, changes l !! "kwargs" = Some v ->
       forall final, accepted self final "kwargs" v kwargs) /\
    (changes l' !! "name" = changes l !! "name" \/
     self !! "name" = None /\
     (changes l !! "name" = None \/ changes l !! "name" = Some VNone) /\
     exists name, get_callable_name obj = inr name /\
                  changes l' !! "name" = Some (VStr name)).

(** The block of the callable group never writes a slot; it leaves the
    frame alone when none of its three keys was proposed. *)
Definition callable_post `{Util} (l : frame) (self : Job)
    (r : outcome frame * Job) : Prop :=
  match r with
  | (Raise _, self') => self' = self
  | (Ok l', self') =>
      self' = self /\
      (forall k, k ∉ ["func"; "args"; "kwargs"; "name"] ->
         changes l' !! k = changes l !! k) /\
      changes l' !! "func" = None /\
      changes l' !! "args" = None /\
      changes l' !! "kwargs" = None /\
      (forall k, k ∉ ["func"; "func_ref"; "args"; "kwargs"] ->
         assoc k (approved l') = assoc k (approved l)) /\
      (all_slots (approved l) -> all_slots (approved l')) /\
      (l' = l /\ changes l !! "func" = None /\ changes l !! "args" = None /\
         changes l !! "kwargs" = None
       \/ group_post self l l')
  end.

(** What lines 113-195 guarantee: no slot is written; when nothing was
    raised, every proposed key has been consumed and a value approved for
    it, only slot names are approved, and a key outside the callable group
    that was not proposed has nothing approved. *)
Definition validate_post `{Util} (proposal : gmap string pyval) (self : Job)
    (r : outcome frame * Job) : Prop :=
  match r with
  | (Raise _, self') => self' = self
  | (Ok l, self') =>
      self' = self /\
      changes l = ∅ /\
      all_slots (approved l) /\
      (forall k v, proposal !! k = Some v ->
         exists stored,
           assoc k (approved l) = Some stored /\
           forall final,
             (forall obj, assoc "func" (approved l) = Some obj ->
                          final !! "func" = Some obj) ->
             accepted self final k v stored) /\
      (forall v, proposal !! "func" = Some v ->
         assoc "func_ref" (approved l) = Some (reference_of v)) /\
      (forall k, proposal !! k = None ->
         k ∉ ["func"; "func_ref"; "args"; "kwargs"; "name"] ->
         assoc k (approved l) = None)
  end.

(** What [_modify] guarantees as a whole. *)
Definition modify_post `{Util} (proposal : gmap string pyval) (self : Job)
    (r : outcome unit * Job) : Prop :=
  match r with
  | (Raise _, self') => self' = self
  | (Ok _, self') =>
      (forall k v, proposal !! k = Some v ->
         exists stored, self' !! k = Some stored /\
                        accepted self self' k v stored) /\
      (forall v, proposal !! "func" = Some v ->
         self' !! "func_ref" = Some (reference_of v)) /\
      (forall k, proposal !! k = None ->
         k ∉ ["func"; "func_ref"; "args"; "kwargs"; "name"] ->
         self' !! k = self !! k)
  end.

(** The slots a snapshot carries besides the callable and its reference. *)
Definition snapshot_slots : list string :=
  ["id"; "trigger"; "executor"; "args"; "kwargs"; "name";
   "misfire_grace_time"; "coalesce"; "max_instances"; "next_run_time"].

(** ** Sample data *)

(** A registry that knows one function, [tasks:tick]. *)
Definition sample_util : Util := {|
  ref_to_obj r :=
    match r with
    | VStr "tasks:tick" => inr (VFunc 1)
    | _ => inl (OtherError "LookupError")
    end;
  obj_to_ref f :=
    match f with
    | VFunc 1 => inr "tasks:tick"
    | _ => inl (ValueError "Cannot determine the reference")
    end;
  get_callable_name f :=
    match f with
    | VFunc 1 => inr "tick"
    | _ => inr "<lambda>"
    end;
  check_callable_args f args kwargs := inr tt;
  convert_to_datetime v tz name :=
    match v with
    | VNone | VDatetime _ => inr v
    | _ => inl (TypeError "Unsupported type")
    end
|}.

(** A time of day, in microseconds. *)
Definition clock (hours minutes : Z) : Z :=
  (hours * 3600 + minutes * 60) * 1000000.

(** The trigger of the specification's scenario: it yields 10:05, 10:10,
    10:20, then nothing. *)
Definition scenario_trigger (previous now : Z) : option Z :=
  if previous <? clock 10 5 then Some (clock 10 5)
  else if previous <? clock 10 10 then Some (clock 10 10)
  else if previous <? clock 10 20 then Some (clock 10 20)
  else None.

Definition sample_job : Job :=
  list_to_map
    [("_scheduler", VScheduler VNone); ("_jobstore_alias", VNone);
     ("id", VStr "job-1"); ("func", VFunc 1); ("func_ref", VStr "tasks:tick");
     ("args", VTuple []); ("kwargs", VDict []); ("name", VStr "tick");
     ("misfire_grace_time", VInt 1); ("coalesce", VBool true);
     ("max_instances", VInt 1); ("trigger", VTrigger scenario_trigger);
     ("executor", VStr "default"); ("next_run_time", VDatetime (clock 10 0))].

(** The snapshot of [sample_job] with its version tag taken out. *)
Definition untagged_snapshot : gmap string pyval :=
  list_to_map
    [("id", VStr "job-1"); ("func", VStr "tasks:tick");
     ("trigger", VTrigger scenario_trigger); ("executor", VStr "default");
     ("args", VTuple []); ("kwargs", VDict []); ("name", VStr "tick");
     ("misfire_grace_time", VInt 1); ("coalesce", VBool true);
     ("max_instances", VInt 1); ("next_run_time", VDatetime (clock 10 0))].

(** ** More of the class, and the vocabulary of its further properties *)

(** [Job.pending], lines 84-88. *)
Definition pending : M bool :=
  alias ← getattr "_jobstore_alias";
  mret (is_none alias).

(** The right operand of a comparison: another [Job], given by its
    slots, or a value of any other class. *)
Inductive operand : Type :=
| OtherJob (slots : Job)
| OtherValue (v : pyval).

(** [Job.__eq__], lines 239-242.  [equal] is Python's [==] on the values of
    the two [id] slots; the answer [None] stands for [NotImplemented]. *)
Definition __eq__ (equal : pyval -> pyval -> bool) (other : operand)
    : M (option bool) :=
  match other with
  | OtherJob slots =>
      mine ← getattr "id";
      match slots !! "id" with
      | Some theirs => mret (Some (equal mine theirs))
      | None => raise (AttributeError "id")
      end
  | OtherValue _ => mret None
  end.

(** The batch proposes one of [func], [args], [kwargs]. *)
Definition touches_callable (proposal : gmap string pyval) : Prop :=
  is_Some (proposal !! "func") \/ is_Some (proposal !! "args") \/
  is_Some (proposal !! "kwargs").

(** The value a member of the callable group is validated with: the
    proposed one, or else the one the job holds. *)
Definition group_source (proposal : gmap string pyval) (self : Job)
    (key : string) (v : pyval) : Prop :=
  proposal !! key = Some v \/ proposal !! key = None /\ self !! key = Some v.

(** The domain [_modify] enforces on the value of a slot.  The callable and
    the next run time are decided by the collaborators ([ref_to_obj],
    [convert_to_datetime]) and the two binding slots are not written by
    [_modify]; they are left open here. *)
Definition slot_ok (key : string) (v : pyval) : bool :=
  if decide (key = "id") then is_str v
  else if decide (key = "name") then truthy v && is_str v
  else if decide (key = "args") then negb (is_str v) && is_iterable v
  else if decide (key = "kwargs") then negb (is_str v) && is_mapping v
  else if decide (key = "func_ref") then is_none v || is_str v
  else if decide (key = "misfire_grace_time") then
    is_none v || (is_int v && (0 <? int_value v))
  else if decide (key = "coalesce") then
    match v with VBool _ => true | _ => false end
  else if decide (key = "max_instances") then is_int v && (0 <? int_value v)
  else if decide (key = "trigger") then is_trigger v
  else if decide (key = "executor") then is_str v
  else true.

(** A job as [__init__] leaves it when given a callable and its arguments
    only: no trigger, no executor, no run time yet. *)
Definition draft_job : Job :=
  list_to_map
    [("_scheduler", VScheduler VNone); ("_jobstore_alias", VNone);
     ("id", VStr "job-1"); ("func", VFunc 1); ("func_ref", VStr "tasks:tick");
     ("args", VTuple []); ("kwargs", VDict []); ("name", VStr "tick")].

(** The batch of a first [_modify]: a callable and its arguments. *)
Definition first_batch : gmap string pyval :=
  list_to_map [("func", VFunc 1); ("args", VTuple []); ("kwargs", VDict [])].

(** The job built from [first_batch] with an empty [id]. *)
Definition built_job : Job :=
  (__init__ (U := sample_util) (VScheduler VNone) (VStr "") first_batch
     "9f1c" ∅).2.

(** The version test of [__setstate__] lets the snapshot through: it has
    no tag, or an integer (a [bool] included) that is at most 1. *)
Definition version_passes (state : gmap string pyval) : Prop :=
  match state !! "version" with
  | Some v => is_int v = true /\ int_value v <= 1
  | None => True
  end.

(** The instance [__setstate__] builds from a snapshot whose reference
    resolves to [func]: slot by slot, in the order of the source. *)
Definition restored_from (state : gmap string pyval) (func : pyval)
    (self : Job) : Job :=
  let field key := default VNone (state !! key) in
  <["next_run_time" := field "next_run_time"]>
    (<["max_instances" := field "max_instances"]>
      (<["coalesce" := field "coalesce"]>
        (<["misfire_grace_time" := field "misfire_grace_time"]>
          (<["name" := field "name"]>
            (<["kwargs" := field "kwargs"]>
              (<["args" := field "args"]>
                (<["executor" := field "executor"]>
                  (<["trigger" := field "trigger"]>
                    (<["func" := func]>
                      (<["func_ref" := field "func"]>
                        (<["id" := field "id"]> self))))))))))).

(** The snapshot [__getstate__] answers for a job it accepts. *)
Definition snapshot_of (self : Job) : gmap string pyval :=
  let field key := default VNone (self !! key) in
  list_to_map
    [("version", VInt 1); ("id", field "id"); ("func", field "func_ref");
     ("trigger", field "trigger"); ("executor", field "executor");
     ("args", field "args"); ("kwargs", field "kwargs");
     ("name", field "name");
     ("misfire_grace_time", field "misfire_grace_time");
     ("coalesce", field "coalesce"); ("max_instances", field "max_instances");
     ("next_run_time", field "next_run_time")].

(** The keys of a snapshot. *)
Definition snapshot_keys : list string :=
  "version" :: "func" :: snapshot_slots.

(** A computation that writes no slot outside [slots], whatever its
    outcome. *)
Definition writes_only {A : Type} (slots : list string) (m : M A) : Prop :=
  forall self key, key ∉ slots -> (m self).2 !! key = self !! key.

(** Every assigned slot holds a value of its domain. *)
Definition well_formed (self : Job) : Prop :=
  forall key v, self !! key = Some v -> slot_ok key v = true.

(** The version tag is one that [gt_one] compares as Python does: there
    is none, or it is an [int] (a [bool] included). *)
Definition integer_tag (state : gmap string pyval) : bool :=
  match state !! "version" with
  | Some v => is_int v
  | None => true
  end.

(** [None], a string, a tuple, a list or a dictionary: built-in values
    that [>] does not order against an [int]. *)
Definition unordered (v : pyval) : bool :=
  match v with
  | VNone | VStr _ | VTuple _ | VList _ | VDict _ => true
  | _ => false
  end.

(** The jobs the class produces.  A job is built by [__init__] on a fresh
    instance, none of whose slots is assigned; it is changed by calls of
    [_modify] that return; and it is loaded by [__setstate__] from a
    snapshot that [__getstate__] took of such a job.  [uuid4().hex] is
    32 hexadecimal digits, never the empty string. *)
Inductive reachable `{Util} : Job -> Prop :=
| reachable_init (scheduler id : pyval) (kwargs : gmap string pyval)
    (uuid4_hex : string) (self : Job) :
    uuid4_hex <> "" ->
    __init__ scheduler id kwargs uuid4_hex ∅ = (Ok tt, self) ->
    reachable self
| reachable_modify (proposal : gmap string pyval) (self self' : Job) :
    reachable self ->
    _modify proposal self = (Ok tt, self') ->
    reachable self'
| reachable_restore (source target self' : Job) (state : gmap string pyval) :
    reachable source ->
    __getstate__ source = (Ok state, source) ->
    __setstate__ state target = (Ok tt, self') ->
    reachable self'.

(** * Utilities of [headphones/helpers.py]

    A Python [str] is the list of its code points.  The functions below
    are the ones of the module that work on strings and lists alone; the
    three library calls they make ([fnmatch], [unidecode], and the order
    [<] of the values compared) are taken as parameters. *)

Module helpers.

(** The code points of a literal written in ASCII. *)
Definition codes (s : string) : list Z :=
  (fun a => Z.of_N (Ascii.N_of_ascii a)) <$> String.list_ascii_of_string s.

(** *** [cmp], lines 45-62

    [x] and [y] are [None] or two values of one type, whose [<] is [lt]
    and whose [x > y] is [y < x], as for the numbers and strings that
    [multikeysort] compares. *)
Definition cmp {T : Type} (lt : T -> T -> bool) (x y : option T) : Z :=
  match x, y with
  | None, None => 0
  | None, Some _ => -1
  | Some _, None => 1
  | Some a, Some b => Z.b2z (lt b a) - Z.b2z (lt a b)
  end.

(** *** [latinToAscii], lines 94-134 *)

Definition xlate : list (Z * string) :=
  [(192, "A"); (193, "A"); (194, "A"); (195, "A"); (196, "A"); (197, "A");
   (198, "Ae"); (199, "C"); (200, "E"); (201, "E"); (202, "E"); (203, "E");
   (134, "e"); (926, "E"); (204, "I"); (205, "I"); (206, "I"); (207, "I");
   (208, "Th"); (209, "N"); (210, "O"); (211, "O"); (212, "O"); (213, "O");
   (214, "O"); (216, "O"); (217, "U"); (218, "U"); (219, "U"); (220, "U");
   (221, "Y"); (222, "th"); (223, "ss"); (224, "a"); (225, "a"); (226, "a");
   (227, "a"); (228, "a"); (229, "a"); (230, "ae"); (231, "c"); (232, "e");
   (233, "e"); (234, "e"); (235, "e"); (601, "e"); (236, "i"); (237, "i");
   (238, "i"); (239, "i"); (240, "th"); (241, "n"); (242, "o"); (243, "o");
   (244, "o"); (245, "o"); (246, "o"); (248, "o"); (249, "u"); (250, "u");
   (251, "u"); (252, "u"); (253, "y"); (254, "th"); (255, "y"); (161, "!");
   (162, "{cent}"); (163, "{pound}"); (164, "{currency}"); (165, "{yen}");
   (166, "|"); (167, "{section}"); (168, "{umlaut}"); (169, "{C}");
   (170, "{^a}"); (171, "<<"); (172, "{not}"); (173, "-"); (174, "{R}");
   (175, "_"); (176, "{degrees}"); (177, "{+/-}"); (178, "{^2}");
   (179, "{^3}"); (180, "'"); (181, "{micro}"); (182, "{paragraph}");
   (183, "*"); (184, "{cedilla}"); (185, "{^1}"); (186, "{^o}"); (187, ">>");
   (188, "{1/4}"); (189, "{1/2}"); (190, "{3/4}"); (191, "?"); (215, "*");
   (247, "/")].

(** [xlate[i]] when [i in xlate] *)
Definition xlate_get (i : Z) : option string :=
  snd <$> List.find (fun entry => Z.eqb (fst entry) i) xlate.

Definition latinToAscii (unicrap : list Z) : list Z :=
  foldl (fun r i =>
           match xlate_get i with
           | Some replacement => r ++ codes replacement
           | None => if 128 <=? i then r else r ++ [i]
           end) [] unicrap.

(** *** [replace_illegal_chars], lines 258-263 *)

(** [re.sub('[...]', repl, string)] for a class of single characters. *)
Definition sub_class (class : list Z) (repl : Z) (string : list Z) : list Z :=
  (fun c => if bool_decide (c ∈ class) then repl else c) <$> string.

(** The class of the pattern for files: question mark, double quote,
    star, colon, bar, less, greater, slash. *)
Definition file_class : list Z := [63; 34; 42; 58; 124; 60; 62; 47].

(** The class of the pattern for folders: colon, question mark, less,
    greater, double quote, bar, star. *)
Definition folder_class : list Z := [58; 63; 60; 62; 34; 124; 42].

Definition underscore : Z := 95.

Definition replace_illegal_chars (string type : list Z) : list Z :=
  let string :=
    if bool_decide (type = codes "file")
    then sub_class file_class underscore string else string in
  let string :=
    if bool_decide (type = codes "folder")
    then sub_class folder_class underscore string else string in
  string.

(** *** [path_match_patterns] and [path_filter_patterns], lines 506-540 *)

Definition path_match_patterns (fnmatch : list Z -> list Z -> bool)
    (path : list Z) (patterns : list (list Z)) : bool :=
  existsb (fnmatch path) patterns.

(** [paths.remove(path)]: the first element equal to [path] goes; without
    one, [ValueError]. *)
Fixpoint list_remove (path : list Z) (paths : list (list Z))
    : outcome (list (list Z)) :=
  match paths with
  | [] => Raise (ValueError "list.remove(x): x not in list")
  | first :: rest =>
      if decide (first = path) then Ok rest
      else match list_remove path rest with
           | Ok rest' => Ok (first :: rest')
           | Raise e => Raise e
           end
  end.

(** The loop of [path_filter_patterns]: it runs over the copy [paths[:]]
    while it removes from [paths] itself and counts. *)
Fixpoint filter_loop (fnmatch : list Z -> list Z -> bool)
    (patterns : list (list Z)) (copy paths : list (list Z)) (ignored : Z)
    : outcome (list (list Z) * Z) :=
  match copy with
  | [] => Ok (paths, ignored)
  | path :: copy' =>
      if path_match_patterns fnmatch path patterns then
        match list_remove path paths with
        | Ok paths' => filter_loop fnmatch patterns copy' paths' (ignored + 1)
        | Raise e => Raise e
        end
      else filter_loop fnmatch patterns copy' paths ignored
  end.

(** The list [paths] as the call leaves it, and the number returned. *)
Definition path_filter_patterns (fnmatch : list Z -> list Z -> bool)
    (paths patterns : list (list Z)) : outcome (list (list Z) * Z) :=
  filter_loop fnmatch patterns paths paths 0.

(** *** [sab_replace_dots], [sab_replace_spaces], [sab_sanitize_foldername],
    lines 943-983 *)

(** [name.replace(old, new)] for single characters. *)
Definition replace_char (old new : Z) (name : list Z) : list Z :=
  (fun c => if Z.eqb c old then new else c) <$> name.

Definition dot : Z := 46.
Definition space : Z := 32.

Definition sab_replace_dots (name : list Z) : list Z :=
  replace_char dot space name.

Definition sab_replace_spaces (name : list Z) : list Z :=
  replace_char space underscore name.

(** [str.isspace] of one character. *)
Definition is_space (c : Z) : bool :=
  bool_decide (c ∈ [9; 10; 11; 12; 13; 28; 29; 30; 31; 32; 133; 160; 5760;
                    8232; 8233; 8239; 8287; 12288])
  || ((8192 <=? c) && (c <=? 8202)).

Fixpoint lstrip (drop : Z -> bool) (s : list Z) : list Z :=
  match s with
  | [] => []
  | c :: s' => if drop c then lstrip drop s' else s
  end.

Definition rstrip (drop : Z -> bool) (s : list Z) : list Z :=
  reverse (lstrip drop (reverse s)).

(** [s.strip()] with [drop := is_space], [s.strip(chars)] with membership
    in [chars]. *)
Definition strip (drop : Z -> bool) (s : list Z) : list Z :=
  rstrip drop (lstrip drop s).

(** [FL_ILLEGAL]: backslash, slash, less, greater, question mark, star,
    bar, double quote, then colon, U+0092 and the double quote again. *)
Definition FL_ILLEGAL : list Z :=
  [92; 47; 60; 62; 63; 42; 124; 34; 58; 146; 34].

(** [FL_LEGAL]: plus, plus, the two braces, exclamation mark, at, hash,
    backquote, then minus and two single quotes. *)
Definition FL_LEGAL : list Z :=
  [43; 43; 123; 125; 33; 64; 35; 96; 45; 39; 39].

(** [s.find(ch)] for a character that occurs in [s]. *)
Fixpoint find_char (ch : Z) (s : list Z) : nat :=
  match s with
  | [] => 0
  | c :: s' => if Z.eqb c ch then 0%nat else S (find_char ch s')
  end.

(** The body of the loop over the characters. *)
Definition sanitize_char (ch : Z) : Z :=
  if bool_decide (ch ∈ FL_ILLEGAL)
  then default ch (FL_LEGAL !! find_char ch FL_ILLEGAL)
  else ch.

(** The answer [None] is Python's [None]. *)
Definition sab_sanitize_foldername (unidecode : list Z -> list Z)
    (name : option (list Z)) : option (list Z) :=
  match name with
  | None | Some [] => None
  | Some name =>
      let name := unidecode name in
      let name := sanitize_char <$> strip is_space name in
      let name := strip (fun c => bool_decide (c ∈ [dot; space])) name in
      Some (if nonempty name then name else codes "unknown")
  end.

End helpers.

(** What one character contributes to the answer of [latinToAscii]. *)
Definition latin_piece (i : Z) : list Z :=
  match helpers.xlate_get i with
  | Some replacement => helpers.codes replacement
  | None => if 128 <=? i then [] else [i]
  end.

(** * Properties *)

(** ** Reasoning about computations *)

Lemma bind_run {A B : Type} (m : M A) (k : A -> M B) (self : Job) :
  (m ≫= k) self =
  match m self with
  | (Ok a, self') => k a self'
  | (Raise e, self') => (Raise e, self')
  end.
Proof. reflexivity. Qed.

Lemma ret_run {A : Type} (a : A) (self : Job) :
  @mret M _ A a self = (Ok a, self).
Proof. reflexivity. Qed.

Lemma readonly_ret {A : Type} (a : A) : readonly (mret a).
Proof. intros self. reflexivity. Qed.

Lemma readonly_raise {A : Type} (e : exn) : readonly (@raise A e).
Proof. intros self. reflexivity. Qed.

Lemma readonly_lift {A : Type} (r : exn + A) : readonly (lift r).
Proof. destruct r; [apply readonly_raise | apply readonly_ret]. Qed.

Lemma readonly_hasattr (name : string) : readonly (hasattr name).
Proof. intros self. reflexivity. Qed.

Lemma readonly_getattr (name : string) : readonly (getattr name).
Proof. intros self. unfold getattr. destruct (self !! name); reflexivity. Qed.

Lemma readonly_bind {A B : Type} (m : M A) (k : A -> M B) :
  readonly m -> (forall a, readonly (k a)) -> readonly (m ≫= k).
Proof.
  intros Hm Hk self. rewrite bind_run.
  specialize (Hm self). destruct (m self) as [[a|e] self']; simpl in Hm; subst.
  - apply Hk.
  - reflexivity.
Qed.

Create HintDb readonly.
#[export] Hint Resolve readonly_ret readonly_raise readonly_lift
  readonly_hasattr readonly_getattr : readonly.

(** Goes through a computation built from reads, raises and binds. *)
Ltac readonly_steps :=
  repeat first
    [ solve [auto with readonly]
    | apply readonly_bind; [| intros ?]
    | match goal with
      | |- readonly (match ?x with _ => _ end) => destruct x
      | |- readonly (let _ := _ in _) => cbv zeta
      end ].

Lemma readonly_datetime_le (v : pyval) (now : Z) : readonly (datetime_le v now).
Proof. unfold datetime_le. readonly_steps. Qed.

Lemma readonly_call_get_next_fire_time (trigger : pyval) (previous now : Z) :
  readonly (call_get_next_fire_time trigger previous now).
Proof. unfold call_get_next_fire_time. readonly_steps. Qed.

Lemma readonly_getitem (state : gmap string pyval) (key : string) :
  readonly (getitem state key).
Proof. unfold getitem. readonly_steps. Qed.

Lemma readonly_gt_one (v : pyval) : readonly (gt_one v).
Proof. unfold gt_one. readonly_steps. Qed.

Lemma readonly_scheduler_timezone : readonly scheduler_timezone.
Proof. unfold scheduler_timezone. readonly_steps. Qed.

#[export] Hint Resolve readonly_datetime_le readonly_call_get_next_fire_time
  readonly_getitem readonly_gt_one readonly_scheduler_timezone : readonly.

Lemma readonly_run_times_loop (fuel : nat) (now : Z) :
  forall run_times next_run_time,
    readonly (run_times_loop fuel now run_times next_run_time).
Proof.
  induction fuel as [|fuel IH]; intros run_times next_run_time; simpl.
  - apply readonly_ret.
  - destruct (truthy next_run_time); [| apply readonly_ret].
    apply readonly_bind; [apply readonly_datetime_le |].
    intros [|]; [| apply readonly_ret].
    apply readonly_bind; [apply readonly_getattr | intros trigger].
    apply readonly_bind; [apply readonly_call_get_next_fire_time | intros next].
    apply IH.
Qed.

Lemma readonly_get_run_times (fuel : nat) (now : Z) :
  readonly (_get_run_times fuel now).
Proof.
  unfold _get_run_times.
  apply readonly_bind; [apply readonly_getattr | intros v].
  apply readonly_bind; [apply readonly_run_times_loop | intros locals].
  apply readonly_ret.
Qed.

(** ** Run-time enumeration *)

Section Enumeration.

Variable trig : Z -> Z -> option Z.
Variable now : Z.

Lemma due_chain_stop (start stop : option Z) (ts : list Z) :
  due_chain trig now start ts stop ->
  stop = None \/ exists t, stop = Some t /\ now < t.
Proof.
  induction 1 as [|t Ht|t ts stop Ht Hch IH]; eauto.
Qed.

Lemma due_chain_functional (start stop stop' : option Z) (ts ts' : list Z) :
  due_chain trig now start ts stop ->
  due_chain trig now start ts' stop' ->
  ts = ts' /\ stop = stop'.
Proof.
  intros H; revert ts' stop'.
  induction H as [|t Ht|t ts stop Ht Hch IH]; intros ts' stop' H';
    inversion H'; subst; try lia; auto.
  destruct (IH _ _ ltac:(eassumption)) as [-> ->]. auto.
Qed.

Lemma due_chain_bounds (start stop : option Z) (ts : list Z) :
  due_chain trig now start ts stop ->
  forall x, x ∈ ts -> x <= now /\ exists s, start = Some s.
Proof.
  induction 1 as [|t Ht|t ts stop Ht Hch IH]; intros x Hx.
  - inversion Hx.
  - inversion Hx.
  - apply elem_of_cons in Hx as [->|Hx]; [eauto |].
    destruct (IH x Hx) as [Hle _]. eauto.
Qed.

Lemma due_chain_from (start stop : option Z) (ts : list Z) :
  strictly_monotonic trig ->
  due_chain trig now start ts stop ->
  forall s x, start = Some s -> x ∈ ts -> s <= x.
Proof.
  intros Hmono.
  induction 1 as [|t Ht|t ts stop Ht Hch IH]; intros s x Hs Hx.
  - inversion Hx.
  - inversion Hx.
  - injection Hs as <-.
    apply elem_of_cons in Hx as [->|Hx]; [lia |].
    destruct (trig t now) as [t'|] eqn:Hnext.
    + specialize (IH t' x eq_refl Hx).
      specialize (Hmono t now t' Hnext). lia.
    + inversion Hch; subst. inversion Hx.
Qed.

Lemma due_chain_sorted (start stop : option Z) (ts : list Z) :
  strictly_monotonic trig ->
  due_chain trig now start ts stop ->
  StronglySorted Z.lt ts.
Proof.
  intros Hmono.
  induction 1 as [|t Ht|t ts stop Ht Hch IH]; try constructor; auto.
  apply Forall_forall. intros x Hx.
  destruct (trig t now) as [t'|] eqn:Hnext.
  - pose proof (due_chain_from _ _ _ Hmono Hch t' x eq_refl Hx).
    specialize (Hmono t now t' Hnext). lia.
  - inversion Hch; subst. inversion Hx.
Qed.

(** Under strict monotonicity the walk ends: each step moves the reference
    point closer to [now] by at least one microsecond. *)
Lemma due_chain_exists (start : option Z) :
  strictly_monotonic trig ->
  exists ts stop, due_chain trig now start ts stop.
Proof.
  intros Hmono.
  destruct start as [t|]; [| exists [], None; constructor].
  remember (Z.to_nat (now - t + 1)) as n eqn:Hn.
  revert t Hn.
  induction n as [n IH] using lt_wf_ind. intros t Hn.
  destruct (Z_lt_le_dec now t) as [Hlt|Hle].
  - exists [], (Some t). by constructor.
  - destruct (trig t now) as [t'|] eqn:Hnext.
    + pose proof (Hmono t now t' Hnext) as Hgt.
      destruct (IH (Z.to_nat (now - t' + 1)) ltac:(lia) t' eq_refl)
        as (ts & stop & Hch).
      exists (t :: ts), stop. constructor; [lia |]. by rewrite Hnext.
    + exists [t], None. constructor; [lia |]. rewrite Hnext. constructor.
Qed.

Variable self : Job.
Hypothesis trigger_slot : self !! "trigger" = Some (VTrigger trig).

Lemma run_times_loop_enough (start stop : option Z) (ts : list Z) :
  due_chain trig now start ts stop ->
  forall (fuel : nat) (run_times : list pyval),
    (length ts < fuel)%nat ->
    run_times_loop fuel now run_times (datetime_or_none start) self =
    (Ok (Some (run_times ++ (VDatetime <$> ts), datetime_or_none stop)), self).
Proof.
  induction 1 as [|t Ht|t ts stop Ht Hch IH]; intros fuel run_times Hfuel;
    (destruct fuel as [|fuel]; [simpl in Hfuel; lia |]); simpl.
  - by rewrite app_nil_r.
  - rewrite bind_run. simpl.
    destruct (Z.leb_spec t now); [lia |]. by rewrite app_nil_r.
  - rewrite bind_run. simpl.
    destruct (Z.leb_spec t now); [| lia].
    rewrite bind_run. unfold getattr. rewrite trigger_slot.
    rewrite bind_run. simpl.
    etrans; [apply (IH fuel (run_times ++ [VDatetime t])); simpl in Hfuel; lia |].
    by rewrite <- (assoc_L (++)).
Qed.

Lemma run_times_loop_short (start stop : option Z) (ts : list Z) :
  due_chain trig now start ts stop ->
  forall (fuel : nat) (run_times : list pyval),
    (fuel <= length ts)%nat ->
    run_times_loop fuel now run_times (datetime_or_none start) self =
    (Ok None, self).
Proof.
  induction 1 as [|t Ht|t ts stop Ht Hch IH]; intros fuel run_times Hfuel;
    (destruct fuel as [|fuel]; [reflexivity |]); simpl in Hfuel; try lia.
  simpl. rewrite bind_run. simpl.
  destruct (Z.leb_spec t now); [| lia].
  rewrite bind_run. unfold getattr. rewrite trigger_slot.
  rewrite bind_run. simpl.
  apply (IH fuel (run_times ++ [VDatetime t])). lia.
Qed.

End Enumeration.

(** ** The approved dictionary and the final loop *)

Lemma assoc_snoc (key k : string) (v : pyval) (items : list (string * pyval)) :
  assoc key (items ++ [(k, v)]) =
  if decide (k = key) then Some v else assoc key items.
Proof.
  induction items as [|[k' v'] items IH]; simpl.
  - reflexivity.
  - rewrite IH. destruct (decide (k = key)); [reflexivity |].
    reflexivity.
Qed.

Lemma assoc_snoc_ne (key k : string) (v : pyval) (items : list (string * pyval)) :
  k <> key -> assoc key (items ++ [(k, v)]) = assoc key items.
Proof. intros Hne. rewrite assoc_snoc. by destruct (decide (k = key)). Qed.

Lemma assoc_snoc_eq (key : string) (v : pyval) (items : list (string * pyval)) :
  assoc key (items ++ [(key, v)]) = Some v.
Proof. rewrite assoc_snoc. by destruct (decide (key = key)). Qed.

Lemma all_slots_snoc (k : string) (v : pyval) (items : list (string * pyval)) :
  is_slot k = true -> all_slots items -> all_slots (items ++ [(k, v)]).
Proof.
  intros Hk Hitems. apply Forall_app. split; [done |].
  by constructor.
Qed.

(** With slot names only, the loop of lines 197-198 cannot raise, and each
    slot ends with the approved value if there is one. *)
Lemma commit_slots (items : list (string * pyval)) :
  all_slots items ->
  forall self, exists self',
    commit items self = (Ok tt, self') /\
    forall key, self' !! key = from_option Some (self !! key) (assoc key items).
Proof.
  induction 1 as [|[k v] items Hk Hitems IH]; intros self; simpl.
  - by exists self.
  - rewrite bind_run. unfold setattr. simpl in Hk. rewrite Hk.
    destruct (IH (<[k := v]> self)) as (self' & Hrun & Hget).
    exists self'. split; [done |]. intros key. rewrite Hget.
    destruct (assoc key items); [done |]. simpl.
    destruct (decide (k = key)) as [->|Hne].
    + by rewrite lookup_insert_eq.
    + by rewrite lookup_insert_ne.
Qed.

(** ** Validation, field by field *)

Section Blocks.

Context {U : Util}.

Lemma block_post_raise (key : string) (l : frame) (self : Job) (e : exn) :
  block_post key l self (Raise e, self).
Proof. reflexivity. Qed.

Lemma block_post_skip (key : string) (l : frame) (self : Job) :
  changes l !! key = None ->
  block_post key l self (Ok l, self).
Proof. intros Hnone. repeat split; auto. intros v Hv. congruence. Qed.

Lemma block_post_approve (key : string) (v stored : pyval) (l : frame) (self : Job) :
  changes l !! key = Some v ->
  is_slot key = true ->
  (forall final, accepted self final key v stored) ->
  block_post key l self (Ok (approve key stored (pop key l)), self).
Proof.
  intros Hv Hslot Hacc. simpl. repeat split.
  - intros k Hk. by apply lookup_delete_ne.
  - apply lookup_delete_eq.
  - intros k Hk. by apply assoc_snoc_ne.
  - intros v' Hv'. exists stored. rewrite assoc_snoc_eq. split; [done |].
    assert (v' = v) as -> by congruence. done.
  - congruence.
  - by apply all_slots_snoc.
Qed.

(** Splits a block on whether its key was proposed and on each test made
    on the value. *)
Ltac field_block_cases key :=
  intros l self;
  destruct (changes l !! key) as [v|] eqn:Hv;
  [| by apply block_post_skip];
  cbv zeta;
  repeat match goal with
    | |- context [if ?b then _ else _] => destruct b eqn:?
    end;
  try apply block_post_raise.

Lemma modify_id_block : field_block "id" modify_id.
Proof.
  unfold field_block, modify_id. field_block_cases "id".
  rewrite bind_run. simpl. case_bool_decide as Hset; [reflexivity |].
  eapply block_post_approve; [exact Hv | done |].
  intros final. constructor.
  - by destruct (is_str v).
  - by apply eq_None_not_Some.
Qed.

Lemma modify_name_block : field_block "name" modify_name.
Proof.
  unfold field_block, modify_name. field_block_cases "name".
  eapply block_post_approve; [exact Hv | done |].
  intros final.
  destruct (truthy v) eqn:Ht, (is_str v) eqn:Hs; try discriminate.
  by constructor.
Qed.

Lemma modify_misfire_grace_time_block :
  field_block "misfire_grace_time" modify_misfire_grace_time.
Proof.
  unfold field_block, modify_misfire_grace_time.
  field_block_cases "misfire_grace_time".
  eapply block_post_approve; [exact Hv | done |].
  intros final.
  destruct (is_none v) eqn:Hn.
  - destruct v; try discriminate. constructor.
  - destruct (is_int v) eqn:Hi; [| discriminate].
    destruct (Z.leb_spec (int_value v) 0); [discriminate |].
    by constructor.
Qed.

Lemma modify_coalesce_block : field_block "coalesce" modify_coalesce.
Proof.
  unfold field_block, modify_coalesce. field_block_cases "coalesce".
  eapply block_post_approve; [exact Hv | done |].
  intros final. constructor.
Qed.

Lemma modify_max_instances_block :
  field_block "max_instances" modify_max_instances.
Proof.
  unfold field_block, modify_max_instances.
  field_block_cases "max_instances".
  eapply block_post_approve; [exact Hv | done |].
  intros final.
  destruct (is_int v) eqn:Hi; [| discriminate].
  destruct (Z.leb_spec (int_value v) 0); [discriminate |].
  by constructor.
Qed.

Lemma modify_trigger_block : field_block "trigger" modify_trigger.
Proof.
  unfold field_block, modify_trigger. field_block_cases "trigger".
  eapply block_post_approve; [exact Hv | done |].
  intros final. constructor. by destruct (is_trigger v).
Qed.

Lemma modify_executor_block : field_block "executor" modify_executor.
Proof.
  unfold field_block, modify_executor. field_block_cases "executor".
  eapply block_post_approve; [exact Hv | done |].
  intros final. constructor. by destruct (is_str v).
Qed.

Lemma modify_next_run_time_block :
  field_block "next_run_time" modify_next_run_time.
Proof.
  unfold field_block, modify_next_run_time.
  field_block_cases "next_run_time".
  rewrite bind_run. unfold scheduler_timezone. rewrite bind_run.
  unfold getattr.
  destruct (self !! "_scheduler") as [scheduler|] eqn:Hsched;
    [| apply block_post_raise].
  destruct scheduler as [ | | | | | | | | | | tz | ]; try apply block_post_raise.
  rewrite ret_run.
  rewrite bind_run. unfold lift.
  destruct (convert_to_datetime v tz "next_run_time") as [e|stored] eqn:Hconv;
    [apply block_post_raise |].
  eapply block_post_approve; [exact Hv | done |].
  intros final. by econstructor.
Qed.

(** *** The callable group *)

Lemma pop_or_attr_run (key : string) (l : frame) (self : Job) :
  match pop_or_attr key l self with
  | (Raise _, self') => self' = self
  | (Ok (v, l'), self') =>
      self' = self /\ approved l' = approved l /\
      changes l' = delete key (changes l) /\
      (changes l !! key = Some v \/
       changes l !! key = None /\ self !! key = Some v)
  end.
Proof.
  unfold pop_or_attr. destruct (changes l !! key) as [v|] eqn:Hv.
  - simpl. auto.
  - rewrite bind_run. unfold getattr.
    destruct (self !! key) as [v|] eqn:Hattr; [| reflexivity].
    rewrite ret_run. repeat split; auto. by rewrite delete_id.
Qed.

Lemma resolve_func_run (func : pyval) (self : Job) :
  match resolve_func func self with
  | (Raise _, self') => self' = self
  | (Ok (obj, ref), self') =>
      self' = self /\ ref = reference_of func /\
      forall final, accepted self final "func" func obj
  end.
Proof.
  unfold resolve_func. destruct (is_str func) eqn:Hstr.
  - rewrite bind_run. unfold lift.
    destruct (ref_to_obj func) as [e|obj] eqn:Href; [reflexivity |].
    rewrite !ret_run. unfold reference_of. rewrite Hstr.
    split; [done |]. split; [done |]. intros final. by constructor.
  - destruct (callable func) eqn:Hcall; [| reflexivity].
    unfold reference_of. rewrite Hstr.
    destruct (obj_to_ref func) as [[]|ref]; try reflexivity;
      (split; [done |]; split; [done |]; intros final; by constructor).
Qed.

Lemma default_name_run (func : pyval) (l : frame) (self : Job) :
  match default_name func l self with
  | (Raise _, self') => self' = self
  | (Ok l', self') =>
      self' = self /\ approved l' = approved l /\
      (l' = l \/
       self !! "name" = None /\
       (changes l !! "name" = None \/ changes l !! "name" = Some VNone) /\
       exists name, get_callable_name func = inr name /\
                    changes l' = <["name" := VStr name]> (changes l))
  end.
Proof.
  unfold default_name. rewrite bind_run. unfold hasattr.
  case_bool_decide as Hnamed; simpl.
  - auto.
  - apply eq_None_not_Some in Hnamed.
    destruct (is_none (default VNone (changes l !! "name"))) eqn:Hnone;
      [| simpl; auto].
    rewrite bind_run. unfold lift.
    destruct (get_callable_name func) as [e|name] eqn:Hname; [reflexivity |].
    rewrite !ret_run. repeat split; auto. right. split; [done |]. split.
    + destruct (changes l !! "name") as [[]|]; try discriminate; auto.
    + by exists name.
Qed.

Lemma not_proposed (key : string) (l : frame) :
  proposed key l = false -> changes l !! key = None.
Proof.
  unfold proposed. intros H. apply bool_decide_eq_false in H.
  by apply eq_None_not_Some.
Qed.

Lemma modify_callable_run (l : frame) (self : Job) :
  callable_post l self (modify_callable l self).
Proof.
  unfold modify_callable.
  destruct (proposed "func" l || proposed "args" l || proposed "kwargs" l)
    eqn:Htouch.
  2: {
    apply orb_false_elim in Htouch as [Htouch Hkw].
    apply orb_false_elim in Htouch as [Hfn Har].
    apply not_proposed in Hfn, Har, Hkw.
    rewrite ret_run. repeat split; auto. }
  clear Htouch. rewrite bind_run.
  pose proof (pop_or_attr_run "func" l self) as H1.
  destruct (pop_or_attr "func" l self) as [[[func l1]|e] s1]; [| done].
  destruct H1 as (-> & Ha1 & Hc1 & Hfn). cbv beta iota. rewrite bind_run.
  pose proof (pop_or_attr_run "args" l1 self) as H2.
  destruct (pop_or_attr "args" l1 self) as [[[args l2]|e] s2]; [| done].
  destruct H2 as (-> & Ha2 & Hc2 & Har). cbv beta iota. rewrite bind_run.
  pose proof (pop_or_attr_run "kwargs" l2 self) as H3.
  destruct (pop_or_attr "kwargs" l2 self) as [[[kwargs l3]|e] s3]; [| done].
  destruct H3 as (-> & Ha3 & Hc3 & Hkw). cbv beta iota. rewrite bind_run.
  pose proof (resolve_func_run func self) as H4.
  destruct (resolve_func func self) as [[[obj ref]|e] s4]; [| done].
  destruct H4 as (-> & Href & Hobj). cbv beta iota. rewrite bind_run.
  pose proof (default_name_run obj l3 self) as H5.
  destruct (default_name obj l3 self) as [[l4|e] s5]; [| done].
  destruct H5 as (-> & Ha5 & Hname).
  destruct (is_str args || negb (is_iterable args)) eqn:Hargs; [reflexivity |].
  destruct (is_str kwargs || negb (is_mapping kwargs)) eqn:Hkwargs;
    [reflexivity |].
  rewrite bind_run. unfold lift.
  destruct (check_callable_args obj args kwargs) as [e|[]] eqn:Hcheck;
    [reflexivity |].
  rewrite !ret_run.
  apply orb_false_elim in Hargs as [Hargs1 Hargs2].
  apply orb_false_elim in Hkwargs as [Hkw1 Hkw2].
  apply negb_false_iff in Hargs2, Hkw2.
  assert (Hc : changes l3 =
               delete "kwargs" (delete "args" (delete "func" (changes l))))
    by (rewrite Hc3, Hc2, Hc1; reflexivity).
  assert (Hother : forall k, k ∉ ["func"; "args"; "kwargs"; "name"] ->
                     changes l4 !! k = changes l !! k).
  { intros k Hk.
    rewrite !not_elem_of_cons in Hk. destruct Hk as (? & ? & ? & ? & _).
    destruct Hname as [-> | (_ & _ & name & _ & ->)];
      rewrite ?lookup_insert_ne by done;
      rewrite Hc, !lookup_delete_ne by done; reflexivity. }
  assert (Hgone : forall k, k ∈ ["func"; "args"; "kwargs"] ->
                    changes l4 !! k = None).
  { intros k Hk.
    assert (changes l3 !! k = None) as Hk3.
    { rewrite Hc. repeat (apply elem_of_cons in Hk as [->|Hk]);
        [| | | by inversion Hk].
      - by rewrite !lookup_delete_ne, lookup_delete_eq by done.
      - by rewrite lookup_delete_ne, lookup_delete_eq by done.
      - by rewrite lookup_delete_eq. }
    assert (k <> "name").
    { intros ->. repeat (apply elem_of_cons in Hk as [Hk|Hk]; [done |]).
      inversion Hk. }
    destruct Hname as [-> | (_ & _ & name & _ & ->)];
      rewrite ?lookup_insert_ne by done; done. }
  unfold callable_post, group_post, approve. cbn [changes approved].
  rewrite Ha5, Ha3, Ha2, Ha1.
  split; [done |]. split; [exact Hother |].
  split; [apply Hgone; repeat constructor |].
  split; [apply Hgone; repeat constructor |].
  split; [apply Hgone; repeat constructor |].
  split.
  { intros k Hk.
    rewrite !not_elem_of_cons in Hk. destruct Hk as (? & ? & ? & ? & _).
    by rewrite !assoc_snoc_ne by done. }
  split.
  { intros Hslots. by repeat apply all_slots_snoc. }
  right. exists obj, ref, args, kwargs.
  rewrite assoc_snoc_eq.
  rewrite !(assoc_snoc_ne "args") by done. rewrite assoc_snoc_eq.
  rewrite !(assoc_snoc_ne "func_ref") by done. rewrite assoc_snoc_eq.
  rewrite !(assoc_snoc_ne "func") by done. rewrite assoc_snoc_eq.
  repeat split; try done.
  - destruct Hfn as [Hfn | [Hfn _]]; congruence.
  - intros final. destruct Hfn as [Hfn | [Hfn _]]; [| congruence].
    assert (v = func) as -> by congruence. apply Hobj.
  - intros v Hv final.
    rewrite Hc1, lookup_delete_ne in Har by done.
    destruct Har as [Har | [Har _]]; [| congruence].
    assert (v = args) as -> by congruence. by constructor.
  - intros v Hv final.
    rewrite Hc2, Hc1, !lookup_delete_ne in Hkw by done.
    destruct Hkw as [Hkw | [Hkw _]]; [| congruence].
    assert (v = kwargs) as -> by congruence. by constructor.
  - assert (Hn3 : changes l3 !! "name" = changes l !! "name")
      by (rewrite Hc, !lookup_delete_ne by done; reflexivity).
    destruct Hname as [-> | (Hnone & Hprop & name & Hget & Hins)].
    + by left.
    + right. split; [done |]. split; [by rewrite <- Hn3 |].
      exists name. split; [done |]. by rewrite Hins, lookup_insert_eq.
Qed.

(** *** All of the validation *)

Lemma reject_leftovers_run (l : frame) (self : Job) :
  match reject_leftovers l self with
  | (Raise _, self') => self' = self
  | (Ok l', self') => self' = self /\ l' = l /\ changes l = ∅
  end.
Proof.
  unfold reject_leftovers.
  destruct (map_to_list (changes l)) as [|kv rest] eqn:Hlist; simpl.
  - by apply map_to_list_empty_iff in Hlist.
  - reflexivity.
Qed.

Ltac run_field_block lem l' Hc Hk Ha Hv Hn Hs :=
  rewrite bind_run;
  match goal with
  | |- context [match ?blk ?fr ?st with _ => _ end] =>
      let B := fresh "B" in
      let e' := fresh "e" in
      let s' := fresh "s" in
      pose proof (lem fr st) as B; unfold block_post in B;
      destruct (blk fr st) as [[l'|e'] s'];
      [destruct B as (-> & Hc & Hk & Ha & Hv & Hn & Hs); cbv beta iota
      | exact B]
  end.

Ltac outside_keys :=
  rewrite !not_elem_of_cons; repeat split; try done; apply not_elem_of_nil.

(** Follows a key of [changes] or of [approved] backwards through the
    blocks that do not touch it. *)
Ltac through_blocks :=
  repeat match goal with
    | H : forall k, k <> _ -> changes ?l' !! k = changes ?l !! k
      |- context [changes ?l' !! ?x] => rewrite (H x) by done
    | H : forall k, k ∉ _ -> changes ?l' !! k = changes ?l !! k
      |- context [changes ?l' !! ?x] => rewrite (H x) by outside_keys
    | H : forall k, k <> _ -> assoc k (approved ?l') = assoc k (approved ?l)
      |- context [assoc ?x (approved ?l')] => rewrite (H x) by done
    | H : forall k, k ∉ _ -> assoc k (approved ?l') = assoc k (approved ?l)
      |- context [assoc ?x (approved ?l')] => rewrite (H x) by outside_keys
    end.

(** The same, also through the block of a key that was not proposed. *)
Ltac through_skipped Hk :=
  repeat first
    [ progress through_blocks
    | match goal with
      | H : changes ?l !! ?key = None ->
            assoc ?key (approved ?l') = assoc ?key (approved ?l)
        |- context [assoc ?key (approved ?l')] =>
          rewrite H by (through_blocks; exact Hk)
      end ].

(** A proposed key whose block is a plain one. *)
Ltac proposed_field Hv Hk :=
  let H := fresh "H" in
  let stored := fresh "stored" in
  let Hst := fresh "Hst" in
  let Hacc := fresh "Hacc" in
  match type of Hk with
  | _ = Some ?v =>
      match type of Hv with
      | forall _, ?c = _ -> _ =>
          assert (c = Some v) as H by (through_blocks; exact Hk)
      end;
      destruct (Hv v H) as (stored & Hst & Hacc);
      exists stored; split;
      [through_blocks; exact Hst | intros final _; apply Hacc]
  end.

Lemma validate_run (proposal : gmap string pyval) (self : Job) :
  validate_post proposal self (validate proposal self).
Proof.
  unfold validate.
  run_field_block modify_id_block l1 c1 k1 a1 v1 n1 s1.
  rewrite bind_run.
  pose proof (modify_callable_run l1 self) as Bg. unfold callable_post in Bg.
  destruct (modify_callable l1 self) as [[lg|e] s]; [| exact Bg].
  destruct Bg as (-> & cg & gf & ga & gk & ag & sg & Bg).
  cbv beta iota.
  run_field_block modify_name_block l3 c3 k3 a3 v3 n3 s3.
  run_field_block modify_misfire_grace_time_block l4 c4 k4 a4 v4 n4 s4.
  run_field_block modify_coalesce_block l5 c5 k5 a5 v5 n5 s5.
  run_field_block modify_max_instances_block l6 c6 k6 a6 v6 n6 s6.
  run_field_block modify_trigger_block l7 c7 k7 a7 v7 n7 s7.
  run_field_block modify_executor_block l8 c8 k8 a8 v8 n8 s8.
  run_field_block modify_next_run_time_block l9 c9 k9 a9 v9 n9 s9.
  pose proof (reject_leftovers_run l9 self) as Br.
  destruct (reject_leftovers l9 self) as [[lr|e] s]; [| exact Br].
  destruct Br as (-> & -> & Hempty).
  unfold validate_post.
  split; [done |]. split; [done |].
  split; [by (apply s9, s8, s7, s6, s5, s4, s3, sg, s1; constructor) |].
  split; [| split].
  - intros k v Hk.
    destruct (decide (k = "id")) as [->|?]; [proposed_field v1 Hk |].
    destruct (decide (k = "misfire_grace_time")) as [->|?];
      [proposed_field v4 Hk |].
    destruct (decide (k = "coalesce")) as [->|?]; [proposed_field v5 Hk |].
    destruct (decide (k = "max_instances")) as [->|?];
      [proposed_field v6 Hk |].
    destruct (decide (k = "trigger")) as [->|?]; [proposed_field v7 Hk |].
    destruct (decide (k = "executor")) as [->|?]; [proposed_field v8 Hk |].
    destruct (decide (k = "next_run_time")) as [->|?];
      [proposed_field v9 Hk |].
    destruct (decide (k = "func")) as [->|?].
    { assert (changes l1 !! "func" = Some v) as Hl by (through_blocks; exact Hk).
      destruct Bg as [(_ & Hno & _) | Bg]; [congruence |].
      destruct Bg as (obj & ref & args & kwargs & Hf & _ & _ & _ & _ & Hacc & _).
      exists obj. split; [through_blocks; exact Hf |].
      intros final _. by apply Hacc. }
    destruct (decide (k = "args")) as [->|?].
    { assert (changes l1 !! "args" = Some v) as Hl by (through_blocks; exact Hk).
      destruct Bg as [(_ & _ & Hno & _) | Bg]; [congruence |].
      destruct Bg as (obj & ref & args & kwargs & _ & _ & Ha & _ & _ & _ & Hacc & _).
      exists args. split; [through_blocks; exact Ha |].
      intros final _. by apply Hacc. }
    destruct (decide (k = "kwargs")) as [->|?].
    { assert (changes l1 !! "kwargs" = Some v) as Hl by (through_blocks; exact Hk).
      destruct Bg as [(_ & _ & _ & Hno) | Bg]; [congruence |].
      destruct Bg as (obj & ref & args & kwargs & _ & _ & _ & Hkw & _ & _ & _ & Hacc & _).
      exists kwargs. split; [through_blocks; exact Hkw |].
      intros final _. by apply Hacc. }
    destruct (decide (k = "name")) as [->|?].
    { assert (changes l1 !! "name" = Some v) as Hl by (through_blocks; exact Hk).
      assert (changes lg !! "name" = Some v \/
              exists obj name,
                v = VNone /\ self !! "name" = None /\
                assoc "func" (approved lg) = Some obj /\
                get_callable_name obj = inr name /\
                changes lg !! "name" = Some (VStr name)) as [Hsame | Hdef].
      { destruct Bg as [(-> & _) | Bg]; [by left |].
        destruct Bg as (obj & ref & args & kwargs & Hf & _ & _ & _ & _ & _ & _ & _ & Hn).
        destruct Hn as [Hn | (Hnone & Hprop & name & Hget & Hins)].
        - left. congruence.
        - right. exists obj, name. repeat split; try done.
          destruct Hprop; congruence. }
      - destruct (v3 v Hsame) as (stored & Hst & Hacc).
        exists stored. split; [through_blocks; exact Hst |].
        intros final _. apply Hacc.
      - destruct Hdef as (obj & name & -> & Hnone & Hf & Hget & Hins).
        destruct (v3 _ Hins) as (stored & Hst & Hacc).
        exists stored. split; [through_blocks; exact Hst |].
        intros final Hfinal.
        specialize (Hacc final). inversion Hacc; subst.
        eapply accepted_name_default; [done | | exact Hget].
        apply Hfinal. through_blocks. exact Hf. }
    exfalso.
    assert (changes l9 !! k = Some v) as Hl by (through_blocks; exact Hk).
    rewrite Hempty, lookup_empty in Hl. discriminate.
  - intros v Hk.
    assert (changes l1 !! "func" = Some v) as Hl by (through_blocks; exact Hk).
    destruct Bg as [(_ & Hno & _) | Bg]; [congruence |].
    destruct Bg as (obj & ref & args & kwargs & _ & Hr & _ & _ & _ & Hacc & _).
    destruct (Hacc v Hl) as [-> _]. through_blocks. exact Hr.
  - intros k Hk Hout.
    rewrite !not_elem_of_cons in Hout.
    destruct Hout as (? & ? & ? & ? & ? & _).
    destruct (decide (k = "id")) as [->|?]; [by through_skipped Hk |].
    destruct (decide (k = "misfire_grace_time")) as [->|?];
      [by through_skipped Hk |].
    destruct (decide (k = "coalesce")) as [->|?]; [by through_skipped Hk |].
    destruct (decide (k = "max_instances")) as [->|?];
      [by through_skipped Hk |].
    destruct (decide (k = "trigger")) as [->|?]; [by through_skipped Hk |].
    destruct (decide (k = "executor")) as [->|?]; [by through_skipped Hk |].
    destruct (decide (k = "next_run_time")) as [->|?];
      [by through_skipped Hk |].
    by through_blocks.
Qed.

(** *** Validation followed by the commit *)

Lemma modify_run (proposal : gmap string pyval) (self : Job) :
  modify_post proposal self (_modify proposal self).
Proof.
  unfold _modify. rewrite bind_run.
  pose proof (validate_run proposal self) as Hv. unfold validate_post in Hv.
  destruct (validate proposal self) as [[l|e] s]; [| exact Hv].
  destruct Hv as (-> & _ & Hslots & Hkeys & Hrefs & Hrest).
  destruct (commit_slots _ Hslots self) as (self' & -> & Hget).
  unfold modify_post. repeat split.
  - intros k v Hk. destruct (Hkeys k v Hk) as (stored & Hst & Hacc).
    exists stored. split; [by rewrite Hget, Hst |].
    apply Hacc. intros obj Hobj. by rewrite Hget, Hobj.
  - intros v Hk. by rewrite Hget, (Hrefs v Hk).
  - intros k Hk Hout. by rewrite Hget, (Hrest k Hk Hout).
Qed.

Lemma modify_raise_unchanged (proposal : gmap string pyval) (self : Job) :
  is_raise (_modify proposal self).1 = true ->
  (_modify proposal self).2 = self.
Proof.
  intros Hraise. pose proof (modify_run proposal self) as Hpost.
  destruct (_modify proposal self) as [[[]|e] self']; [discriminate | exact Hpost].
Qed.

(** A batch one of whose values no check accepts cannot go through. *)
Lemma modify_needs_accepted (proposal : gmap string pyval) (self : Job)
    (k : string) (v : pyval) :
  proposal !! k = Some v ->
  (forall final stored, ~ accepted self final k v stored) ->
  exists e, _modify proposal self = (Raise e, self).
Proof.
  intros Hk Hbad. pose proof (modify_run proposal self) as Hpost.
  destruct (_modify proposal self) as [[[]|e] self'].
  - destruct Hpost as (Hkeys & _).
    destruct (Hkeys k v Hk) as (stored & _ & Hacc).
    by destruct (Hbad self' stored).
  - simpl in Hpost. subst. by exists e.
Qed.

End Blocks.

(** ** The validated mutation *)

Lemma accepted_modifiable `{Util} (self final : Job) (k : string) (v stored : pyval) :
  accepted self final k v stored -> k ∈ modifiable.
Proof.
  unfold modifiable. destruct 1; repeat constructor.
Qed.

(** C1.  A batch handed to [_modify] is committed as a whole or not at
    all.  When the call raises, every slot of the job is what it was
    before.  When it returns, every proposed key holds a value that the
    checks accepted for it.  A proposed value that no check accepts, and a
    key that is not a modifiable attribute, each make the call raise. *)
Theorem modify_all_or_nothing `{Util} (proposal : gmap string pyval) (self : Job) :
  (is_raise (_modify proposal self).1 = true ->
   (_modify proposal self).2 = self) /\
  (is_raise (_modify proposal self).1 = false ->
   forall k v, proposal !! k = Some v ->
     exists stored,
       (_modify proposal self).2 !! k = Some stored /\
       accepted self (_modify proposal self).2 k v stored) /\
  (forall k v, proposal !! k = Some v ->
     (forall final stored, ~ accepted self final k v stored) ->
     is_raise (_modify proposal self).1 = true) /\
  (forall k, is_Some (proposal !! k) -> k ∉ modifiable ->
     is_raise (_modify proposal self).1 = true).
Proof.
  repeat split.
  - apply modify_raise_unchanged.
  - intros Hok k v Hk. pose proof (modify_run proposal self) as Hpost.
    destruct (_modify proposal self) as [[[]|e] self']; [| discriminate].
    destruct Hpost as (Hkeys & _). by apply Hkeys.
  - intros k v Hk Hbad.
    destruct (modify_needs_accepted proposal self k v Hk Hbad) as (e & ->).
    reflexivity.
  - intros k [v Hk] Hout.
    destruct (modify_needs_accepted proposal self k v Hk) as (e & ->);
      [| reflexivity].
    intros final stored Hacc. apply Hout. by eapply accepted_modifiable.
Qed.

Lemma modify_all_or_nothing_witness :
  let batch : gmap string pyval :=
    list_to_map [("name", VStr "tock"); ("colour", VInt 3)] in
  is_raise (_modify (U := sample_util) batch sample_job).1 = true /\
  (_modify (U := sample_util) batch sample_job).2 = sample_job.
Proof.
  intros batch.
  assert (is_Some (batch !! "colour")) as Hproposed
    by (exists (VInt 3); reflexivity).
  assert ("colour" ∉ modifiable) as Hunknown
    by (apply (bool_decide_unpack _); vm_compute; exact I).
  assert (is_raise (_modify (U := sample_util) batch sample_job).1 = true)
    as Hraise
    by exact (proj2 (proj2 (proj2
                (modify_all_or_nothing (H := sample_util) batch sample_job)))
                "colour" Hproposed Hunknown).
  split; [exact Hraise |].
  exact (proj1 (modify_all_or_nothing (H := sample_util) batch sample_job)
           Hraise).
Defined.

(** C4.  Once the [id] slot is set, a batch that proposes an [id], of
    whatever type and value, makes [_modify] raise, and the job, its [id]
    included, stays as it was. *)
Theorem modify_id_is_immutable `{Util} (proposal : gmap string pyval)
    (self : Job) (old value : pyval) :
  self !! "id" = Some old ->
  proposal !! "id" = Some value ->
  exists e,
    _modify proposal self = (Raise e, self) /\
    (e = TypeError "id must be a nonempty string" \/
     e = ValueError "The job ID may not be changed") /\
    (_modify proposal self).2 !! "id" = Some old.
Proof.
  intros Hold Hnew.
  unfold _modify, validate. rewrite !bind_run.
  unfold modify_id. cbn [changes]. rewrite Hnew. cbv zeta.
  destruct (is_str value); simpl.
  - rewrite bind_run. unfold hasattr. rewrite Hold.
    rewrite bool_decide_eq_true_2 by eauto. simpl. eauto 6.
  - eauto 6.
Qed.

Lemma modify_id_is_immutable_witness :
  exists e,
    _modify (U := sample_util) {[ "id" := VStr "job-2" ]} sample_job =
      (Raise e, sample_job) /\
    (e = TypeError "id must be a nonempty string" \/
     e = ValueError "The job ID may not be changed") /\
    (_modify (U := sample_util) {[ "id" := VStr "job-2" ]} sample_job).2 !! "id" =
      Some (VStr "job-1").
Proof.
  apply (modify_id_is_immutable (H := sample_util) _ sample_job
           (VStr "job-1") (VStr "job-2")); reflexivity.
Defined.

(** C6.  A batch whose [args] is a string or is not iterable, or whose
    [kwargs] is a string or is not a mapping, makes [_modify] raise and
    leaves the job as it was. *)
Theorem modify_rejects_malformed_arguments `{Util}
    (proposal : gmap string pyval) (self : Job) :
  (exists v, proposal !! "args" = Some v /\
             (is_str v = true \/ is_iterable v = false)) \/
  (exists v, proposal !! "kwargs" = Some v /\
             (is_str v = true \/ is_mapping v = false)) ->
  exists e, _modify proposal self = (Raise e, self).
Proof.
  intros [(v & Hv & Hbad) | (v & Hv & Hbad)];
    apply (modify_needs_accepted proposal self _ v Hv);
    intros final stored Hacc; inversion Hacc; subst;
    destruct Hbad; congruence.
Qed.

Lemma modify_rejects_malformed_arguments_witness :
  exists e,
    _modify (U := sample_util) {[ "args" := VStr "abc" ]} sample_job =
      (Raise e, sample_job).
Proof.
  apply (modify_rejects_malformed_arguments (H := sample_util)).
  left. exists (VStr "abc"). split; [reflexivity | by left].
Defined.

(** [__init__] never hands an [id] that counts as false to [_modify]: it
    puts the generated one in its place. *)
Lemma init_generates_id `{Util} (scheduler id : pyval)
    (kwargs : gmap string pyval) (uuid4_hex : string) (self : Job) :
  truthy id = false ->
  __init__ scheduler id kwargs uuid4_hex self =
  __init__ scheduler VNone kwargs uuid4_hex self.
Proof. intros Hfalse. unfold __init__. by rewrite Hfalse. Qed.

(** ** Run-time enumeration and the [next_run_time] slot *)

Lemma get_run_times_enough (trig : Z -> Z -> option Z) (now : Z)
    (start stop : option Z) (ts : list Z) (self : Job) (fuel : nat) :
  self !! "trigger" = Some (VTrigger trig) ->
  self !! "next_run_time" = Some (datetime_or_none start) ->
  due_chain trig now start ts stop ->
  (length ts < fuel)%nat ->
  _get_run_times fuel now self = (Ok (Some (VDatetime <$> ts)), self).
Proof.
  intros Htrig Hnext Hchain Hfuel.
  unfold _get_run_times. rewrite bind_run. unfold getattr at 1. rewrite Hnext.
  rewrite bind_run.
  by rewrite (run_times_loop_enough trig now self Htrig start stop ts Hchain).
Qed.

Lemma get_run_times_short (trig : Z -> Z -> option Z) (now : Z)
    (start stop : option Z) (ts : list Z) (self : Job) (fuel : nat) :
  self !! "trigger" = Some (VTrigger trig) ->
  self !! "next_run_time" = Some (datetime_or_none start) ->
  due_chain trig now start ts stop ->
  (fuel <= length ts)%nat ->
  _get_run_times fuel now self = (Ok None, self).
Proof.
  intros Htrig Hnext Hchain Hfuel.
  unfold _get_run_times. rewrite bind_run. unfold getattr at 1. rewrite Hnext.
  rewrite bind_run.
  by rewrite (run_times_loop_short trig now self Htrig start stop ts Hchain).
Qed.


Lemma scenario_chain :
  due_chain scenario_trigger (clock 10 12) (Some (clock 10 0))
    [clock 10 0; clock 10 5; clock 10 10] (Some (clock 10 20)).
Proof.
  apply due_step; [by vm_compute |].
  apply due_step; [by vm_compute |].
  apply due_step; [by vm_compute |].
  apply due_later. by vm_compute.
Qed.



(** C3.  With a strictly monotonic trigger, and a job whose
    [next_run_time] holds a time or [None], the enumeration returns: any
    bound on the iterations above the number of due times gives the same
    list.  The list starts at [next_run_time], follows the trigger's
    answers, is strictly increasing and has no element after [now]; any
    call on any job with the same trigger and the same [next_run_time]
    returns that list and leaves the job as it was. *)
Theorem get_run_times_increasing (trig : Z -> Z -> option Z) (now : Z)
    (start : option Z) (self : Job) :
  strictly_monotonic trig ->
  self !! "trigger" = Some (VTrigger trig) ->
  self !! "next_run_time" = Some (datetime_or_none start) ->
  exists ts stop,
    due_chain trig now start ts stop /\
    StronglySorted Z.lt ts /\
    Forall (fun t => t <= now) ts /\
    (forall fuel, (length ts < fuel)%nat ->
       _get_run_times fuel now self = (Ok (Some (VDatetime <$> ts)), self)) /\
    (forall fuel job result job',
       job !! "trigger" = Some (VTrigger trig) ->
       job !! "next_run_time" = Some (datetime_or_none start) ->
       _get_run_times fuel now job = (Ok (Some result), job') ->
       result = VDatetime <$> ts /\ job' = job).
Proof.
  intros Hmono Htrig Hnext.
  destruct (due_chain_exists trig now start Hmono) as (ts & stop & Hchain).
  exists ts, stop. split; [exact Hchain |].
  split; [by eapply due_chain_sorted |].
  split.
  { apply Forall_forall. intros x Hx.
    by destruct (due_chain_bounds trig now start stop ts Hchain x Hx). }
  split.
  - intros fuel Hfuel. by eapply get_run_times_enough.
  - intros fuel job result job' Hjt Hjn Hrun.
    destruct (le_lt_dec fuel (length ts)) as [Hshort | Hlong].
    + rewrite (get_run_times_short trig now start stop ts job fuel
                 Hjt Hjn Hchain Hshort) in Hrun.
      discriminate.
    + rewrite (get_run_times_enough trig now start stop ts job fuel
                 Hjt Hjn Hchain Hlong) in Hrun.
      by injection Hrun as <- <-.
Qed.

Lemma scenario_trigger_monotonic : strictly_monotonic scenario_trigger.
Proof.
  intros previous now t. unfold scenario_trigger.
  destruct (Z.ltb_spec previous (clock 10 5)); [intros [= <-]; lia |].
  destruct (Z.ltb_spec previous (clock 10 10)); [intros [= <-]; lia |].
  destruct (Z.ltb_spec previous (clock 10 20)); [intros [= <-]; lia |].
  discriminate.
Qed.

Lemma get_run_times_increasing_witness :
  exists ts stop,
    due_chain scenario_trigger (clock 10 12) (Some (clock 10 0)) ts stop /\
    StronglySorted Z.lt ts /\
    Forall (fun t => t <= clock 10 12) ts /\
    (forall fuel, (length ts < fuel)%nat ->
       _get_run_times fuel (clock 10 12) sample_job =
         (Ok (Some (VDatetime <$> ts)), sample_job)) /\
    (forall fuel job result job',
       job !! "trigger" = Some (VTrigger scenario_trigger) ->
       job !! "next_run_time" = Some (datetime_or_none (Some (clock 10 0))) ->
       _get_run_times fuel (clock 10 12) job = (Ok (Some result), job') ->
       result = VDatetime <$> ts /\ job' = job).
Proof.
  apply (get_run_times_increasing scenario_trigger (clock 10 12)
           (Some (clock 10 0)) sample_job).
  - exact scenario_trigger_monotonic.
  - reflexivity.
  - reflexivity.
Defined.

(** ** Pickling *)

Lemma bind_ret {A B : Type} (a : A) (k : A -> M B) (self : Job) :
  (mret a ≫= k) self = k a self.
Proof. reflexivity. Qed.

Lemma bind_getattr {B : Type} (name : string) (v : pyval) (k : pyval -> M B)
    (self : Job) :
  self !! name = Some v ->
  (getattr name ≫= k) self = k v self.
Proof. intros Hv. rewrite bind_run. unfold getattr. by rewrite Hv. Qed.

Lemma bind_setattr {B : Type} (name : string) (v : pyval) (k : unit -> M B)
    (self : Job) :
  is_slot name = true ->
  (setattr name v ≫= k) self = k tt (<[name := v]> self).
Proof. intros Hslot. rewrite bind_run. unfold setattr. by rewrite Hslot. Qed.

Lemma restore_run `{Util} (attr key : string) (v : pyval)
    (state : gmap string pyval) (self : Job) :
  state !! key = Some v ->
  is_slot attr = true ->
  restore attr key state self = (Ok tt, <[attr := v]> self).
Proof.
  intros Hv Hslot. unfold restore, getitem. rewrite Hv, bind_ret.
  unfold setattr. by rewrite Hslot.
Qed.

Lemma bind_restore `{Util} {B : Type} (attr key : string) (v : pyval)
    (state : gmap string pyval) (k : unit -> M B) (self : Job) :
  state !! key = Some v ->
  is_slot attr = true ->
  (restore attr key state ≫= k) self = k tt (<[attr := v]> self).
Proof.
  intros Hv Hslot. by rewrite bind_run, (restore_run attr key v state self).
Qed.

(** C8.  A snapshot whose version tag is an integer above 1 is refused
    by [__setstate__] with the version error, and no slot has been
    assigned when the error is raised. *)
Theorem setstate_rejects_newer_version `{Util} (state : gmap string pyval)
    (self : Job) (n : Z) :
  state !! "version" = Some (VInt n) ->
  1 < n ->
  __setstate__ state self = (Raise version_error, self).
Proof.
  intros Hversion Hnewer. unfold __setstate__. rewrite bind_run, Hversion.
  simpl. destruct (Z.ltb_spec 1 n); [reflexivity | lia].
Qed.

Lemma setstate_rejects_newer_version_witness :
  __setstate__ (U := sample_util)
    (list_to_map [("version", VInt 2); ("id", VStr "job-1")]) sample_job =
  (Raise version_error, sample_job).
Proof.
  apply (setstate_rejects_newer_version (H := sample_util) _ sample_job 2).
  - reflexivity.
  - lia.
Defined.

Lemma restore_fields_ignores_version `{Util} (state : gmap string pyval)
    (v : pyval) (self : Job) :
  restore_fields (<["version" := v]> state) self = restore_fields state self.
Proof.
  unfold restore_fields, restore, getitem.
  by rewrite !lookup_insert_ne by done.
Qed.

(** With a reference that counts as true, [__getstate__] gets past its
    guard: it answers a snapshot, or a slot it reads was never assigned. *)
Lemma getstate_referenced (self : Job) (ref : pyval) :
  self !! "func_ref" = Some ref ->
  truthy ref = true ->
  (exists state, __getstate__ self = (Ok state, self)) \/
  (exists slot, __getstate__ self = (Raise (AttributeError slot), self)).
Proof.
  intros Href Htrue. unfold __getstate__.
  rewrite (bind_getattr _ _ _ _ Href), Htrue. cbn [negb].
  repeat match goal with
    | |- context [(getattr ?name ≫= _) self] =>
        let v := fresh "v" in
        let Hv := fresh "Hv" in
        destruct (self !! name) as [v|] eqn:Hv;
        [ rewrite (bind_getattr name v _ self Hv)
        | right; exists name; rewrite bind_run; unfold getattr; by rewrite Hv ]
    end.
  left. eexists. reflexivity.
Qed.

(** C9.  For a job whose reference counts as true and resolves, through
    [ref_to_obj], to the job's own callable, and whose snapshot slots are
    all assigned: [__getstate__] answers a snapshot, [__setstate__] of that
    snapshot succeeds on any instance, and the restored instance agrees
    with the job on every snapshot slot, on the reference and on the
    callable. *)
Theorem getstate_setstate_round_trip `{Util} (self target : Job)
    (ref func : pyval) :
  self !! "func_ref" = Some ref ->
  truthy ref = true ->
  self !! "func" = Some func ->
  ref_to_obj ref = inr func ->
  (forall k, k ∈ snapshot_slots -> is_Some (self !! k)) ->
  exists state restored,
    __getstate__ self = (Ok state, self) /\
    __setstate__ state target = (Ok tt, restored) /\
    forall k, k ∈ "func" :: "func_ref" :: snapshot_slots ->
      restored !! k = self !! k.
Proof.
  intros Href Htrue Hfunc Hresolve Hset.
  assert (forall k, In k snapshot_slots -> is_Some (self !! k)) as Hget
    by (intros k Hk; apply Hset; by apply list_elem_of_In).
  destruct (Hget "id") as [id Hid]; [simpl; tauto |].
  destruct (Hget "trigger") as [trigger Htrigger]; [simpl; tauto |].
  destruct (Hget "executor") as [executor Hexecutor]; [simpl; tauto |].
  destruct (Hget "args") as [args Hargs]; [simpl; tauto |].
  destruct (Hget "kwargs") as [kwargs Hkwargs]; [simpl; tauto |].
  destruct (Hget "name") as [name Hname]; [simpl; tauto |].
  destruct (Hget "misfire_grace_time") as [misfire Hmisfire];
    [simpl; tauto |].
  destruct (Hget "coalesce") as [coalesce Hcoalesce]; [simpl; tauto |].
  destruct (Hget "max_instances") as [instances Hinstances];
    [simpl; tauto |].
  destruct (Hget "next_run_time") as [next Hnext]; [simpl; tauto |].
  clear Hget Hset.
  eexists. eexists. split; [| split].
  - unfold __getstate__.
    rewrite (bind_getattr _ _ _ _ Href), Htrue. cbn [negb].
    rewrite (bind_getattr _ _ _ _ Hid), (bind_getattr _ _ _ _ Href),
      (bind_getattr _ _ _ _ Htrigger), (bind_getattr _ _ _ _ Hexecutor),
      (bind_getattr _ _ _ _ Hargs), (bind_getattr _ _ _ _ Hkwargs),
      (bind_getattr _ _ _ _ Hname), (bind_getattr _ _ _ _ Hmisfire),
      (bind_getattr _ _ _ _ Hcoalesce), (bind_getattr _ _ _ _ Hinstances),
      (bind_getattr _ _ _ _ Hnext).
    reflexivity.
  - unfold __setstate__. rewrite bind_run.
    change (gt_one _ target) with (@Ok bool false, target). cbv beta iota.
    unfold restore_fields.
    rewrite (bind_restore "id" "id" id) by reflexivity.
    rewrite (bind_restore "func_ref" "func" ref) by reflexivity.
    rewrite (bind_getattr "func_ref" ref)
      by (by rewrite lookup_insert_eq).
    rewrite bind_run. unfold lift at 1. rewrite Hresolve, ret_run.
    rewrite bind_setattr by reflexivity.
    rewrite (bind_restore "trigger" "trigger" trigger) by reflexivity.
    rewrite (bind_restore "executor" "executor" executor) by reflexivity.
    rewrite (bind_restore "args" "args" args) by reflexivity.
    rewrite (bind_restore "kwargs" "kwargs" kwargs) by reflexivity.
    rewrite (bind_restore "name" "name" name) by reflexivity.
    rewrite (bind_restore "misfire_grace_time" "misfire_grace_time" misfire)
      by reflexivity.
    rewrite (bind_restore "coalesce" "coalesce" coalesce) by reflexivity.
    rewrite (bind_restore "max_instances" "max_instances" instances)
      by reflexivity.
    apply (restore_run "next_run_time" "next_run_time" next); reflexivity.
  - intros k Hk.
    repeat (apply elem_of_cons in Hk as [->|Hk]);
      [.. | by apply elem_of_nil in Hk];
      repeat (rewrite lookup_insert_ne by done);
      rewrite lookup_insert_eq; congruence.
Qed.

Lemma getstate_setstate_round_trip_witness :
  exists state restored,
    __getstate__ sample_job = (Ok state, sample_job) /\
    __setstate__ (U := sample_util) state ∅ = (Ok tt, restored) /\
    forall k, k ∈ "func" :: "func_ref" :: snapshot_slots ->
      restored !! k = sample_job !! k.
Proof.
  apply (getstate_setstate_round_trip (H := sample_util) sample_job ∅
           (VStr "tasks:tick") (VFunc 1)); try reflexivity.
  intros k Hk.
  repeat (apply elem_of_cons in Hk as [->|Hk]);
    [.. | by apply elem_of_nil in Hk]; eexists; reflexivity.
Defined.

(** ** A callable without a textual reference *)

Lemma pop_or_attr_proposed (key : string) (v : pyval) (l : frame) (self : Job) :
  changes l !! key = Some v ->
  pop_or_attr key l self = (Ok (v, pop key l), self).
Proof. intros Hv. unfold pop_or_attr. by rewrite Hv. Qed.

Lemma pop_or_attr_current (key : string) (v : pyval) (l : frame) (self : Job) :
  changes l !! key = None ->
  self !! key = Some v ->
  pop_or_attr key l self = (Ok (v, l), self).
Proof.
  intros Hnone Hv. unfold pop_or_attr. rewrite Hnone.
  by rewrite (bind_getattr _ _ _ _ Hv).
Qed.

(** With nothing left in [changes], the blocks after the callable group
    and the test for leftovers let the frame through. *)
Lemma validate_tail `{Util} (l : frame) (self : Job) :
  changes l = ∅ ->
  (l ← modify_name l;
   l ← modify_misfire_grace_time l;
   l ← modify_coalesce l;
   l ← modify_max_instances l;
   l ← modify_trigger l;
   l ← modify_executor l;
   l ← modify_next_run_time l;
   reject_leftovers l) self = (Ok l, self).
Proof.
  intros Hempty.
  unfold modify_name, modify_misfire_grace_time, modify_coalesce,
    modify_max_instances, modify_trigger, modify_executor,
    modify_next_run_time, reject_leftovers.
  repeat (rewrite Hempty, lookup_empty; cbv beta iota; rewrite bind_ret).
  by rewrite Hempty, map_to_list_empty.
Qed.

(** A batch that proposes nothing but a callable, on a job that has a
    name, arguments and keyword arguments the callable accepts. *)
Lemma modify_func_only `{Util} (self : Job) (func args kwargs name : pyval) :
  is_str func = false ->
  callable func = true ->
  (forall e, obj_to_ref func = inl e -> exists msg, e = ValueError msg) ->
  self !! "args" = Some args ->
  self !! "kwargs" = Some kwargs ->
  self !! "name" = Some name ->
  is_str args = false -> is_iterable args = true ->
  is_str kwargs = false -> is_mapping kwargs = true ->
  check_callable_args func args kwargs = inr tt ->
  _modify {[ "func" := func ]} self =
  (Ok tt, <["kwargs" := kwargs]> (<["args" := args]>
            (<["func_ref" := reference_of func]> (<["func" := func]> self)))).
Proof.
  intros Hstr Hcall Hderive Hargs Hkwargs Hname Ha1 Ha2 Hk1 Hk2 Hcheck.
  set (l0 := {| changes := {[ "func" := func ]}; approved := [] |}).
  set (l1 := {| changes := ∅; approved := [] |} : frame).
  assert (pop "func" l0 = l1) as Hpop
    by (unfold pop, l0, l1; cbn [changes approved];
        by rewrite delete_singleton_eq).
  assert (resolve_func func self = (Ok (func, reference_of func), self))
    as Hresolve.
  { unfold resolve_func, reference_of. rewrite Hstr, Hcall.
    destruct (obj_to_ref func) as [e|ref] eqn:Href; [| reflexivity].
    by destruct (Hderive e eq_refl) as [msg ->]. }
  assert (forall l, default_name func l self = (Ok l, self)) as Hdefault.
  { intros l. unfold default_name. rewrite bind_run. unfold hasattr.
    rewrite Hname. by rewrite bool_decide_eq_true_2 by eauto. }
  assert (modify_callable l0 self =
          (Ok (approve "kwargs" kwargs (approve "args" args
                 (approve "func_ref" (reference_of func)
                    (approve "func" func l1)))), self)) as Hgroup.
  { unfold modify_callable.
    assert (proposed "func" l0 = true) as ->
      by (unfold proposed, l0; cbn [changes];
          rewrite lookup_singleton_eq; by apply bool_decide_eq_true_2).
    cbn [orb].
    rewrite bind_run, (pop_or_attr_proposed "func" func l0 self), Hpop
      by apply lookup_singleton_eq.
    cbv beta iota.
    rewrite bind_run, (pop_or_attr_current "args" args l1 self)
      by (done || apply lookup_empty).
    cbv beta iota.
    rewrite bind_run, (pop_or_attr_current "kwargs" kwargs l1 self)
      by (done || apply lookup_empty).
    cbv beta iota.
    rewrite bind_run, Hresolve. cbv beta iota.
    rewrite bind_run, Hdefault.
    rewrite Ha1, Ha2, Hk1, Hk2. cbn [negb orb].
    rewrite bind_run. unfold lift. by rewrite Hcheck. }
  unfold _modify, validate. rewrite bind_run, bind_run.
  fold l0. unfold modify_id at 1.
  assert (changes l0 !! "id" = None) as -> by (by apply lookup_singleton_ne).
  rewrite ret_run, bind_run, Hgroup.
  rewrite validate_tail by reflexivity.
  unfold approve, l1. cbn [changes approved app commit].
  rewrite !bind_setattr by reflexivity. reflexivity.
Qed.

Lemma getstate_unreferenced (self : Job) (ref func : pyval) :
  self !! "func_ref" = Some ref ->
  truthy ref = false ->
  self !! "func" = Some func ->
  __getstate__ self = (Raise not_serializable, self).
Proof.
  intros Href Hfalse Hfunc. unfold __getstate__.
  rewrite (bind_getattr _ _ _ _ Href), Hfalse. cbn [negb].
  by rewrite (bind_getattr _ _ _ _ Hfunc).
Qed.

(** C7.  Let [func] be a callable for which [obj_to_ref] raises
    [ValueError].  Proposed alone on a job whose arguments it accepts, it
    is committed, with [None] as its reference.  After any batch that
    commits it, [__getstate__] raises the error for an undetermined
    reference and leaves the job as it was, so each later attempt does the
    same.  After a batch that commits a callable with a non-empty textual
    reference, [__getstate__] does not raise that error: it answers a
    snapshot, unless a slot it reads was never assigned. *)
Theorem unreferenced_callable_is_not_picklable `{Util} (self : Job)
    (func args kwargs name : pyval) (msg : string) :
  is_str func = false ->
  callable func = true ->
  obj_to_ref func = inl (ValueError msg) ->
  self !! "args" = Some args ->
  self !! "kwargs" = Some kwargs ->
  self !! "name" = Some name ->
  is_str args = false -> is_iterable args = true ->
  is_str kwargs = false -> is_mapping kwargs = true ->
  check_callable_args func args kwargs = inr tt ->
  (exists self',
     _modify {[ "func" := func ]} self = (Ok tt, self') /\
     self' !! "func" = Some func /\
     self' !! "func_ref" = Some VNone /\
     __getstate__ self' = (Raise not_serializable, self')) /\
  (forall proposal job job',
     proposal !! "func" = Some func ->
     _modify proposal job = (Ok tt, job') ->
     job' !! "func_ref" = Some VNone /\
     __getstate__ job' = (Raise not_serializable, job')) /\
  (forall proposal job job' f ref,
     proposal !! "func" = Some f ->
     reference_of f = VStr ref ->
     ref <> "" ->
     _modify proposal job = (Ok tt, job') ->
     job' !! "func_ref" = Some (VStr ref) /\
     ((exists state, __getstate__ job' = (Ok state, job')) \/
      (exists slot, __getstate__ job' = (Raise (AttributeError slot), job')))).
Proof.
  intros Hstr Hcall Hderive Hargs Hkwargs Hname Ha1 Ha2 Hk1 Hk2 Hcheck.
  assert (reference_of func = VNone) as Hnone
    by (unfold reference_of; by rewrite Hstr, Hderive).
  assert (forall proposal job job',
            proposal !! "func" = Some func ->
            _modify proposal job = (Ok tt, job') ->
            job' !! "func" = Some func /\ job' !! "func_ref" = Some VNone /\
            __getstate__ job' = (Raise not_serializable, job')) as Hany.
  { intros proposal job job' Hfunc Hrun.
    pose proof (modify_run proposal job) as Hpost. rewrite Hrun in Hpost.
    destruct Hpost as (Hkeys & Hrefs & _).
    destruct (Hkeys "func" func Hfunc) as (stored & Hstored & Hacc).
    assert (stored = func) as -> by (inversion Hacc; subst; congruence).
    pose proof (Hrefs func Hfunc) as Href. rewrite Hnone in Href.
    split; [done |]. split; [done |].
    by apply (getstate_unreferenced job' VNone func). }
  split; [| split].
  - eexists. split.
    + apply (modify_func_only self func args kwargs name); try done.
      intros e He. exists msg. congruence.
    + apply (Hany {[ "func" := func ]} self).
      * apply lookup_singleton_eq.
      * apply (modify_func_only self func args kwargs name); try done.
        intros e He. exists msg. congruence.
  - intros proposal job job' Hfunc Hrun.
    by destruct (Hany proposal job job' Hfunc Hrun) as (_ & ? & ?).
  - intros proposal job job' f ref Hf Href Hne Hrun.
    pose proof (modify_run proposal job) as Hpost. rewrite Hrun in Hpost.
    destruct Hpost as (_ & Hrefs & _).
    pose proof (Hrefs f Hf) as Hslot. rewrite Href in Hslot.
    split; [done |].
    apply (getstate_referenced job' (VStr ref) Hslot).
    simpl. by apply negb_true_iff, String.eqb_neq.
Qed.

Lemma unreferenced_callable_is_not_picklable_witness :
  exists self',
    _modify (U := sample_util) {[ "func" := VFunc 2 ]} sample_job =
      (Ok tt, self') /\
    self' !! "func" = Some (VFunc 2) /\
    self' !! "func_ref" = Some VNone /\
    __getstate__ self' = (Raise not_serializable, self').
Proof.
  apply (unreferenced_callable_is_not_picklable (H := sample_util)
           sample_job (VFunc 2) (VTuple []) (VDict []) (VStr "tick")
           "Cannot determine the reference"); reflexivity.
Defined.

(** * Further properties of the class *)

(** ** The parts of a successful [_modify] *)

Section Trace.

Context {U : Util}.

Lemma default_name_applies (func : pyval) (l : frame) (self : Job) :
  self !! "name" = None ->
  changes l !! "name" = None \/ changes l !! "name" = Some VNone ->
  default_name func l self =
  match get_callable_name func with
  | inr name => (Ok (set_change "name" (VStr name) l), self)
  | inl e => (Raise e, self)
  end.
Proof.
  intros Hnone Hprop. unfold default_name. rewrite bind_run. unfold hasattr.
  rewrite Hnone, bool_decide_eq_false_2 by (by intros [? ?]).
  cbv beta iota.
  assert (is_none (default VNone (changes l !! "name")) = true) as ->
    by (destruct Hprop as [-> | ->]; reflexivity).
  cbn [negb andb]. rewrite bind_run. unfold lift.
  by destruct (get_callable_name func).
Qed.

Lemma default_name_keeps (func : pyval) (l : frame) (self : Job) :
  is_Some (self !! "name") \/
    (exists v, changes l !! "name" = Some v /\ is_none v = false) ->
  default_name func l self = (Ok l, self).
Proof.
  intros Hkeep. unfold default_name. rewrite bind_run. unfold hasattr.
  cbv beta iota. destruct Hkeep as [Hset | (v & Hv & Hnot)].
  - by rewrite bool_decide_eq_true_2.
  - rewrite Hv. simpl. rewrite Hnot. by rewrite andb_false_r.
Qed.

Lemma modify_callable_untouched (l : frame) (self : Job) :
  changes l !! "func" = None ->
  changes l !! "args" = None ->
  changes l !! "kwargs" = None ->
  modify_callable l self = (Ok l, self).
Proof.
  intros Hf Ha Hk. unfold modify_callable, proposed. rewrite Hf, Ha, Hk.
  by rewrite bool_decide_eq_false_2 by (by intros [? ?]).
Qed.

(** The callable group's block again, this time with where each value came
    from and the tests each one passed, proposed or not, and with what it
    does about the name. *)
Lemma modify_callable_sources (l : frame) (self : Job) (l' : frame) (s : Job) :
  modify_callable l self = (Ok l', s) ->
  is_Some (changes l !! "func") \/ is_Some (changes l !! "args") \/
    is_Some (changes l !! "kwargs") ->
  exists f a k obj,
    group_source (changes l) self "func" f /\
    group_source (changes l) self "args" a /\
    group_source (changes l) self "kwargs" k /\
    (forall final, accepted self final "func" f obj) /\
    is_str a = false /\ is_iterable a = true /\
    is_str k = false /\ is_mapping k = true /\
    check_callable_args obj a k = inr tt /\
    assoc "func" (approved l') = Some obj /\
    assoc "func_ref" (approved l') = Some (reference_of f) /\
    assoc "args" (approved l') = Some a /\
    assoc "kwargs" (approved l') = Some k /\
    (self !! "name" = None ->
     changes l !! "name" = None \/ changes l !! "name" = Some VNone ->
     exists name, get_callable_name obj = inr name /\
                  changes l' !! "name" = Some (VStr name)) /\
    (is_Some (self !! "name") \/
       (exists v, changes l !! "name" = Some v /\ is_none v = false) ->
     changes l' !! "name" = changes l !! "name").
Proof.
  intros Hrun Htouch. unfold modify_callable in Hrun.
  assert (proposed "func" l || proposed "args" l || proposed "kwargs" l = true)
    as Hp.
  { unfold proposed. destruct Htouch as [Ht | [Ht | Ht]];
      rewrite (bool_decide_eq_true_2 _ Ht); by rewrite ?orb_true_r. }
  rewrite Hp in Hrun. clear Hp. rewrite bind_run in Hrun.
  pose proof (pop_or_attr_run "func" l self) as H1.
  destruct (pop_or_attr "func" l self) as [[[f l1]|e] s1]; [| discriminate].
  destruct H1 as (-> & Ha1 & Hc1 & Hfn). cbv beta iota in Hrun.
  rewrite bind_run in Hrun.
  pose proof (pop_or_attr_run "args" l1 self) as H2.
  destruct (pop_or_attr "args" l1 self) as [[[a l2]|e] s2]; [| discriminate].
  destruct H2 as (-> & Ha2 & Hc2 & Har). cbv beta iota in Hrun.
  rewrite bind_run in Hrun.
  pose proof (pop_or_attr_run "kwargs" l2 self) as H3.
  destruct (pop_or_attr "kwargs" l2 self) as [[[k l3]|e] s3]; [| discriminate].
  destruct H3 as (-> & Ha3 & Hc3 & Hkw). cbv beta iota in Hrun.
  rewrite bind_run in Hrun.
  pose proof (resolve_func_run f self) as H4.
  destruct (resolve_func f self) as [[[obj ref]|e] s4]; [| discriminate].
  destruct H4 as (-> & -> & Hobj). cbv beta iota in Hrun.
  rewrite bind_run in Hrun.
  pose proof (default_name_run obj l3 self) as H5.
  destruct (default_name obj l3 self) as [[l4|e] s5] eqn:Hdef; [| discriminate].
  destruct H5 as (-> & Ha5 & _).
  destruct (is_str a || negb (is_iterable a)) eqn:Hargs; [discriminate |].
  destruct (is_str k || negb (is_mapping k)) eqn:Hkwargs; [discriminate |].
  rewrite bind_run in Hrun. unfold lift in Hrun.
  destruct (check_callable_args obj a k) as [e|[]] eqn:Hcheck; [discriminate |].
  rewrite !ret_run in Hrun. injection Hrun as <- <-.
  apply orb_false_elim in Hargs as [Hargs1 Hargs2].
  apply orb_false_elim in Hkwargs as [Hkw1 Hkw2].
  apply negb_false_iff in Hargs2, Hkw2.
  rewrite Hc1, lookup_delete_ne in Har by done.
  rewrite Hc2, Hc1, !lookup_delete_ne in Hkw by done.
  assert (changes l3 !! "name" = changes l !! "name") as Hn3
    by (by rewrite Hc3, Hc2, Hc1, !lookup_delete_ne by done).
  exists f, a, k, obj. unfold group_source, approve. cbn [changes approved].
  rewrite assoc_snoc_eq.
  rewrite !(assoc_snoc_ne "args") by done. rewrite assoc_snoc_eq.
  rewrite !(assoc_snoc_ne "func_ref") by done. rewrite assoc_snoc_eq.
  rewrite !(assoc_snoc_ne "func") by done. rewrite assoc_snoc_eq.
  repeat split; try done.
  - intros Hnone Hprop. rewrite <- Hn3 in Hprop.
    rewrite (default_name_applies obj l3 self Hnone Hprop) in Hdef.
    destruct (get_callable_name obj) as [e|name]; [discriminate |].
    injection Hdef as <-. exists name. split; [done |].
    apply lookup_insert_eq.
  - intros Hkeep. rewrite <- Hn3 in Hkeep.
    rewrite (default_name_keeps obj l3 self Hkeep) in Hdef.
    by injection Hdef as <-.
Qed.

(** Runs the next block of [validate] inside the hypothesis [Hrun]. *)
Ltac next_block Hrun lem l' E Ha :=
  rewrite bind_run in Hrun;
  match type of Hrun with
  | context [match ?blk ?fr ?st with _ => _ end] =>
      let B := fresh "B" in
      let e' := fresh "e" in
      let s' := fresh "s" in
      pose proof (lem fr st) as B; unfold block_post in B;
      destruct (blk fr st) as [[l'|e'] s'] eqn:E;
      [destruct B as (-> & _ & _ & Ha & _ & _ & _); cbv beta iota in Hrun
      | discriminate Hrun]
  end.

(** A validation that went through, cut after the block of the name: the
    blocks that follow approve nothing under the keys of the first three. *)
Lemma validate_split (proposal : gmap string pyval) (self : Job)
    (l : frame) (s : Job) :
  validate proposal self = (Ok l, s) ->
  s = self /\
  exists l1 lg l3,
    modify_id {| changes := proposal; approved := [] |} self = (Ok l1, self) /\
    modify_callable l1 self = (Ok lg, self) /\
    modify_name lg self = (Ok l3, self) /\
    forall k, k ∈ ["id"; "func"; "func_ref"; "args"; "kwargs"; "name"] ->
      assoc k (approved l) = assoc k (approved l3).
Proof.
  intros Hrun. unfold validate in Hrun.
  next_block Hrun modify_id_block l1 E1 a1.
  rewrite bind_run in Hrun.
  pose proof (modify_callable_run l1 self) as Bg. unfold callable_post in Bg.
  destruct (modify_callable l1 self) as [[lg|e] sg] eqn:Eg; [| discriminate].
  destruct Bg as (-> & _). cbv beta iota in Hrun.
  next_block Hrun modify_name_block l3 E3 a3.
  next_block Hrun modify_misfire_grace_time_block l4 E4 a4.
  next_block Hrun modify_coalesce_block l5 E5 a5.
  next_block Hrun modify_max_instances_block l6 E6 a6.
  next_block Hrun modify_trigger_block l7 E7 a7.
  next_block Hrun modify_executor_block l8 E8 a8.
  next_block Hrun modify_next_run_time_block l9 E9 a9.
  pose proof (reject_leftovers_run l9 self) as Br.
  rewrite Hrun in Br. destruct Br as (-> & -> & _).
  split; [done |]. exists l1, lg, l3. repeat split; try done.
  intros k Hk.
  repeat (apply elem_of_cons in Hk as [->|Hk]);
    [.. | by apply elem_of_nil in Hk];
    by rewrite a9, a8, a7, a6, a5, a4 by done.
Qed.

(** A [_modify] that returned: its validation went through, and each slot
    holds the approved value if there is one and its old value if not. *)
Lemma modify_inv (proposal : gmap string pyval) (self self' : Job) :
  _modify proposal self = (Ok tt, self') ->
  exists l,
    validate proposal self = (Ok l, self) /\
    forall k, self' !! k = from_option Some (self !! k) (assoc k (approved l)).
Proof.
  intros Hrun. unfold _modify in Hrun. rewrite bind_run in Hrun.
  pose proof (validate_run proposal self) as Hv. unfold validate_post in Hv.
  destruct (validate proposal self) as [[l|e] s]; [| discriminate].
  destruct Hv as (-> & _ & Hslots & _).
  destruct (commit_slots _ Hslots self) as (final & Hcommit & Hget).
  rewrite Hcommit in Hrun. injection Hrun as <-. by exists l.
Qed.

(** The stages of a [_modify] that returned, as far as the callable group
    and the name are concerned: the frame [l1] that enters the group's
    block, the frame [lg] that leaves it, and the slots afterwards. *)
Lemma modify_stages (proposal : gmap string pyval) (self self' : Job) :
  _modify proposal self = (Ok tt, self') ->
  exists l1 lg,
    modify_callable l1 self = (Ok lg, self) /\
    (forall k, k <> "id" -> changes l1 !! k = proposal !! k) /\
    (forall k, k <> "id" -> assoc k (approved l1) = None) /\
    (forall k, k ∈ ["func"; "func_ref"; "args"; "kwargs"] ->
       self' !! k = from_option Some (self !! k) (assoc k (approved lg))) /\
    (forall v, changes lg !! "name" = Some v ->
       self' !! "name" = Some v /\ truthy v = true /\ is_str v = true) /\
    (changes lg !! "name" = None -> self' !! "name" = self !! "name").
Proof.
  intros Hrun.
  destruct (modify_inv proposal self self' Hrun) as (l & Hval & Hget).
  destruct (validate_split proposal self l self Hval)
    as (_ & l1 & lg & l3 & E1 & Eg & E3 & Htail).
  pose proof (modify_id_block {| changes := proposal; approved := [] |} self)
    as B1.
  unfold block_post in B1. rewrite E1 in B1.
  destruct B1 as (_ & c1 & _ & a1 & _ & _ & _). cbn [changes approved] in *.
  pose proof (modify_callable_run l1 self) as Bg.
  unfold callable_post in Bg. rewrite Eg in Bg.
  destruct Bg as (_ & _ & _ & _ & _ & ag & _ & _).
  pose proof (modify_name_block lg self) as B3.
  unfold block_post in B3. rewrite E3 in B3.
  destruct B3 as (_ & _ & _ & a3 & v3 & n3 & _).
  exists l1, lg. split; [exact Eg |]. split; [exact c1 |].
  split; [intros k Hk; by rewrite a1 |].
  split; [| split].
  - intros k Hk. rewrite Hget.
    rewrite Htail by (rewrite !elem_of_cons in Hk; rewrite !elem_of_cons; tauto).
    rewrite a3; [done |].
    intros ->. repeat (apply elem_of_cons in Hk as [?|Hk]; [done |]).
    by apply elem_of_nil in Hk.
  - intros v Hv. destruct (v3 v Hv) as (stored & Hst & Hacc).
    rewrite Hget, Htail, Hst by (rewrite !elem_of_cons; tauto).
    specialize (Hacc ∅). inversion Hacc; subst; [done |].
    by rewrite lookup_empty in *.
  - intros Hnone. rewrite Hget, Htail by (rewrite !elem_of_cons; tauto).
    rewrite (n3 Hnone), ag, a1; [done | done |].
    rewrite !not_elem_of_cons. repeat split; try done. apply not_elem_of_nil.
Qed.

End Trace.

(** ** What a successful [_modify] has done *)

(** X1.  When a batch proposes any of [func], [args], [kwargs], the three
    are validated together: a member that is not proposed is taken from
    the job, the callable is resolved, and the signature check has passed
    on exactly the three values the job holds afterwards. *)
Theorem modify_validates_group_together `{Util}
    (proposal : gmap string pyval) (self self' : Job) :
  _modify proposal self = (Ok tt, self') ->
  touches_callable proposal ->
  exists f a k obj,
    group_source proposal self "func" f /\
    group_source proposal self "args" a /\
    group_source proposal self "kwargs" k /\
    accepted self self' "func" f obj /\
    check_callable_args obj a k = inr tt /\
    self' !! "func" = Some obj /\
    self' !! "func_ref" = Some (reference_of f) /\
    self' !! "args" = Some a /\
    self' !! "kwargs" = Some k.
Proof.
  intros Hrun Htouch.
  destruct (modify_stages proposal self self' Hrun)
    as (l1 & lg & Eg & c1 & _ & Hgroup & _).
  unfold touches_callable in Htouch.
  rewrite <- (c1 "func"), <- (c1 "args"), <- (c1 "kwargs") in Htouch by done.
  destruct (modify_callable_sources l1 self lg self Eg Htouch)
    as (f & a & k & obj & Hf & Ha & Hk & Hacc & _ & _ & _ & _ & Hcheck &
        Af & Ar & Aa & Ak & _).
  unfold group_source in *.
  rewrite (c1 "func") in Hf by done. rewrite (c1 "args") in Ha by done.
  rewrite (c1 "kwargs") in Hk by done.
  exists f, a, k, obj.
  rewrite !Hgroup by (rewrite !elem_of_cons; tauto).
  rewrite Af, Ar, Aa, Ak. repeat split; try done.
Qed.

Lemma modify_validates_group_together_witness :
  exists f a k obj,
    group_source {[ "func" := VFunc 2 ]} draft_job "func" f /\
    group_source {[ "func" := VFunc 2 ]} draft_job "args" a /\
    group_source {[ "func" := VFunc 2 ]} draft_job "kwargs" k /\
    accepted (H := sample_util) draft_job
      (_modify (U := sample_util) {[ "func" := VFunc 2 ]} draft_job).2
      "func" f obj /\
    check_callable_args (Util := sample_util) obj a k = inr tt /\
    (_modify (U := sample_util) {[ "func" := VFunc 2 ]} draft_job).2
      !! "func" = Some obj /\
    (_modify (U := sample_util) {[ "func" := VFunc 2 ]} draft_job).2
      !! "func_ref" = Some (reference_of (H := sample_util) f) /\
    (_modify (U := sample_util) {[ "func" := VFunc 2 ]} draft_job).2
      !! "args" = Some a /\
    (_modify (U := sample_util) {[ "func" := VFunc 2 ]} draft_job).2
      !! "kwargs" = Some k.
Proof.
  apply (modify_validates_group_together (H := sample_util)).
  - vm_compute. reflexivity.
  - left. exists (VFunc 2). reflexivity.
Defined.

(** X2.  A successful [_modify] changes a slot only for a reason: the slot
    was proposed, or it belongs to the callable group and the batch touches
    the group, or it is the name of a job that had none.  Everything else
    stays, the scheduler and the store alias among it, and so does the
    name a job already has when the batch changes the callable. *)
Theorem modify_frame `{Util} (proposal : gmap string pyval)
    (self self' : Job) (key : string) :
  _modify proposal self = (Ok tt, self') ->
  proposal !! key = None ->
  (key ∈ ["func"; "func_ref"; "args"; "kwargs"] ->
   ~ touches_callable proposal) ->
  (key = "name" -> is_Some (self !! "name") \/ ~ touches_callable proposal) ->
  self' !! key = self !! key.
Proof.
  intros Hrun Hkey Hgroup Hname.
  destruct (decide (key ∈ ["func"; "func_ref"; "args"; "kwargs"; "name"]))
    as [Hin | Hout].
  2: { pose proof (modify_run proposal self) as Hpost. rewrite Hrun in Hpost.
       destruct Hpost as (_ & _ & Hrest). by apply Hrest. }
  destruct (modify_stages proposal self self' Hrun)
    as (l1 & lg & Eg & c1 & a1 & Hslots & _ & Hkeep).
  assert (~ touches_callable proposal -> lg = l1) as Hsame.
  { intros Hno.
    assert (modify_callable l1 self = (Ok l1, self)) as Heq.
    { apply modify_callable_untouched; rewrite c1 by done;
        apply eq_None_not_Some; intros Hsome; apply Hno;
        unfold touches_callable; tauto. }
    rewrite Heq in Eg. by injection Eg as <-. }
  destruct (decide (key = "name")) as [-> | Hne].
  - apply Hkeep. destruct (Hname eq_refl) as [Hset | Hno].
    + destruct (decide (touches_callable proposal)) as [Htouch | Hno].
      * unfold touches_callable in Htouch.
        rewrite <- (c1 "func"), <- (c1 "args"), <- (c1 "kwargs") in Htouch
          by done.
        destruct (modify_callable_sources l1 self lg self Eg Htouch)
          as (f & a & k & obj & _ & _ & _ & _ & _ & _ & _ & _ & _ &
              _ & _ & _ & _ & _ & Hkept).
        rewrite Hkept by (by left). by rewrite c1.
      * rewrite (Hsame Hno). by rewrite c1.
    + rewrite (Hsame Hno). by rewrite c1.
  - assert (key ∈ ["func"; "func_ref"; "args"; "kwargs"]) as Hin'
      by (rewrite !elem_of_cons in Hin; rewrite !elem_of_cons; tauto).
    rewrite (Hslots key Hin'), (Hsame (Hgroup Hin')), a1; [done |].
    intros ->. repeat (apply elem_of_cons in Hin' as [?|Hin']; [done |]).
    by apply elem_of_nil in Hin'.
Qed.

Lemma modify_frame_witness :
  (_modify (U := sample_util) {[ "func" := VFunc 2 ]} draft_job).2 !! "name" =
  draft_job !! "name".
Proof.
  apply (modify_frame (H := sample_util) {[ "func" := VFunc 2 ]}).
  - vm_compute. reflexivity.
  - reflexivity.
  - intros Hin. exfalso.
    repeat (apply elem_of_cons in Hin as [Hin|Hin]; [discriminate |]).
    by apply elem_of_nil in Hin.
  - intros _. left. eexists. reflexivity.
Defined.

(** X3.  A job without a name gets one with its callable: when a batch
    touches the callable group and proposes no name (or [None] for it),
    the name committed is what [get_callable_name] answers for the callable
    committed, and it is a non-empty string. *)
Theorem modify_default_name `{Util} (proposal : gmap string pyval)
    (self self' : Job) :
  _modify proposal self = (Ok tt, self') ->
  self !! "name" = None ->
  proposal !! "name" = None \/ proposal !! "name" = Some VNone ->
  touches_callable proposal ->
  exists obj name,
    self' !! "func" = Some obj /\
    get_callable_name obj = inr name /\
    self' !! "name" = Some (VStr name) /\
    name <> "".
Proof.
  intros Hrun Hnone Hprop Htouch.
  destruct (modify_stages proposal self self' Hrun)
    as (l1 & lg & Eg & c1 & _ & Hslots & Hnamed & _).
  unfold touches_callable in Htouch.
  rewrite <- (c1 "func"), <- (c1 "args"), <- (c1 "kwargs") in Htouch by done.
  rewrite <- (c1 "name") in Hprop by done.
  destruct (modify_callable_sources l1 self lg self Eg Htouch)
    as (f & a & k & obj & _ & _ & _ & _ & _ & _ & _ & _ & _ &
        Af & _ & _ & _ & Hdefault & _).
  destruct (Hdefault Hnone Hprop) as (name & Hget & Hchange).
  destruct (Hnamed _ Hchange) as (Hslot & Htrue & _).
  exists obj, name.
  rewrite Hslots, Af by (rewrite !elem_of_cons; tauto).
  repeat split; try done.
  intros ->. discriminate.
Qed.

Lemma modify_default_name_witness :
  exists obj name,
    (_modify (U := sample_util) first_batch ∅).2 !! "func" = Some obj /\
    get_callable_name (Util := sample_util) obj = inr name /\
    (_modify (U := sample_util) first_batch ∅).2 !! "name" =
      Some (VStr name) /\
    name <> "".
Proof.
  apply (modify_default_name (H := sample_util) first_batch ∅).
  - vm_compute. reflexivity.
  - reflexivity.
  - left. reflexivity.
  - left. eexists. reflexivity.
Defined.

Lemma reference_of_ok `{Util} (f : pyval) : slot_ok "func_ref" (reference_of f) = true.
Proof.
  unfold reference_of. destruct (is_str f) eqn:Hstr.
  - unfold slot_ok. simpl. by rewrite Hstr, orb_true_r.
  - by destruct (obj_to_ref f).
Qed.

Lemma accepted_ok `{Util} (self final : Job) (key : string) (v stored : pyval) :
  accepted self final key v stored ->
  key ∉ ["func"; "name"; "args"; "kwargs"] ->
  slot_ok key stored = true.
Proof.
  intros Hacc Hout. rewrite !not_elem_of_cons in Hout.
  destruct Hout as (? & ? & ? & ? & _).
  destruct Hacc; try done; unfold slot_ok; simpl;
    repeat match goal with
      | H : _ = true |- _ => rewrite H; clear H
      | H : 0 < _ |- _ => apply Z.ltb_lt in H; rewrite H; clear H
      end;
    by rewrite ?orb_true_r.
Qed.

(** Whatever a successful [_modify] writes lies in the domain of its slot:
    a slot of the job afterwards holds its old value or a value that
    [slot_ok] admits. *)
Lemma modify_written_value `{Util} (proposal : gmap string pyval)
    (self self' : Job) (key : string) (v : pyval) :
  _modify proposal self = (Ok tt, self') ->
  self' !! key = Some v ->
  self !! key = Some v \/ slot_ok key v = true.
Proof.
  intros Hrun Hv.
  destruct (decide (key ∈ ["func"; "func_ref"; "args"; "kwargs"; "name"]))
    as [Hin | Hout].
  - destruct (modify_stages proposal self self' Hrun)
      as (l1 & lg & Eg & c1 & a1 & Hslots & Hnamed & Hkeep).
    destruct (decide (key = "name")) as [-> | Hne].
    { destruct (changes lg !! "name") as [n|] eqn:Hn.
      - destruct (Hnamed n eq_refl) as (Hslot & Htrue & Hstr).
        right. assert (v = n) as -> by congruence.
        unfold slot_ok. simpl. by rewrite Htrue, Hstr.
      - left. by rewrite <- (Hkeep eq_refl). }
    destruct (decide (key = "func")) as [-> | Hnf]; [by right |].
    assert (key ∈ ["func"; "func_ref"; "args"; "kwargs"]) as Hin'
      by (rewrite !elem_of_cons in Hin; rewrite !elem_of_cons; tauto).
    rewrite (Hslots key Hin') in Hv.
    destruct (decide (is_Some (changes l1 !! "func") \/
                      is_Some (changes l1 !! "args") \/
                      is_Some (changes l1 !! "kwargs"))) as [Htouch | Hno].
    + destruct (modify_callable_sources l1 self lg self Eg Htouch)
        as (f & a & k & obj & _ & _ & _ & _ & Ha1 & Ha2 & Hk1 & Hk2 & _ &
            _ & Ar & Aa & Ak & _).
      right. rewrite !elem_of_cons in Hin'.
      destruct Hin' as [-> | [-> | [-> | [-> | Hnil]]]];
        [done | | | | by apply elem_of_nil in Hnil].
      * rewrite Ar in Hv. injection Hv as <-. apply reference_of_ok.
      * rewrite Aa in Hv. injection Hv as <-.
        unfold slot_ok. simpl. by rewrite Ha1, Ha2.
      * rewrite Ak in Hv. injection Hv as <-.
        unfold slot_ok. simpl. by rewrite Hk1, Hk2.
    + assert (modify_callable l1 self = (Ok l1, self)) as Heq.
      { apply modify_callable_untouched; apply eq_None_not_Some; tauto. }
      rewrite Heq in Eg. injection Eg as <-.
      rewrite a1 in Hv; [by left |].
      intros ->. repeat (apply elem_of_cons in Hin' as [?|Hin']; [done |]).
      by apply elem_of_nil in Hin'.
  - pose proof (modify_run proposal self) as Hpost. rewrite Hrun in Hpost.
    destruct Hpost as (Hkeys & _ & Hrest).
    destruct (proposal !! key) as [pv|] eqn:Hp.
    + destruct (Hkeys key pv Hp) as (stored & Hst & Hacc).
      right. assert (v = stored) as -> by congruence.
      apply (accepted_ok self self' key pv stored Hacc).
      rewrite !not_elem_of_cons in Hout. rewrite !not_elem_of_cons. tauto.
    + left. by rewrite <- (Hrest key Hp Hout).
Qed.

(** X4.  The domains of the slots are an invariant of [_modify]: a string
    for [id] and [executor], a non-empty string for [name], a non-string
    iterable and a non-string mapping for [args] and [kwargs], [None] or a
    positive integer for [misfire_grace_time], a positive integer for
    [max_instances], a [bool] for [coalesce], a trigger for [trigger],
    [None] or a string for [func_ref].  A job all of whose assigned slots
    are in their domains is still so after any [_modify] that returns. *)
Theorem modify_keeps_well_formed `{Util} (proposal : gmap string pyval)
    (self self' : Job) :
  well_formed self ->
  _modify proposal self = (Ok tt, self') ->
  well_formed self'.
Proof.
  intros Hwf Hrun key v Hv.
  destruct (modify_written_value proposal self self' key v Hrun Hv)
    as [Hold | Hok]; [by apply (Hwf key v) | exact Hok].
Qed.

Lemma draft_job_well_formed : well_formed draft_job.
Proof.
  intros key v Hv.
  destruct (decide (key ∈ ["id"; "name"; "args"; "kwargs"; "func_ref"]))
    as [Hin | Hout].
  - repeat (apply elem_of_cons in Hin as [-> | Hin]);
      [.. | by apply elem_of_nil in Hin];
      vm_compute in Hv; injection Hv as <-; reflexivity.
  - rewrite !not_elem_of_cons in Hout.
    destruct Hout as (? & ? & ? & ? & ? & _).
    unfold slot_ok. repeat (case_decide; [try done |]); try reflexivity;
      subst; vm_compute in Hv; discriminate.
Qed.

Lemma modify_keeps_well_formed_witness :
  well_formed (<["max_instances" := VInt 3]> draft_job).
Proof.
  apply (modify_keeps_well_formed (H := sample_util)
           {[ "max_instances" := VInt 3 ]} draft_job).
  - exact draft_job_well_formed.
  - vm_compute. reflexivity.
Defined.

(** ** Small batches *)

(** X5.  The empty batch is accepted on any instance and writes nothing. *)
Theorem modify_nothing `{Util} (self : Job) :
  _modify ∅ self = (Ok tt, self).
Proof.
  unfold _modify, validate. rewrite bind_run, bind_run.
  unfold modify_id at 1. cbn [changes]. rewrite lookup_empty, ret_run.
  rewrite bind_run, modify_callable_untouched by apply lookup_empty.
  by rewrite validate_tail.
Qed.

(** A batch that proposes a next run time and nothing else, on a job that
    knows its scheduler. *)
Lemma modify_next_run_time_only `{Util} (self : Job) (v tz stored : pyval) :
  self !! "_scheduler" = Some (VScheduler tz) ->
  convert_to_datetime v tz "next_run_time" = inr stored ->
  _modify {[ "next_run_time" := v ]} self =
  (Ok tt, <["next_run_time" := stored]> self).
Proof.
  intros Hsched Hconv.
  set (l0 := {| changes := {[ "next_run_time" := v ]}; approved := [] |}).
  assert (forall k, k <> "next_run_time" -> changes l0 !! k = None) as Hother
    by (intros k Hk; by apply lookup_singleton_ne).
  unfold _modify, validate. fold l0. rewrite bind_run, bind_run.
  unfold modify_id at 1. rewrite Hother, ret_run by done.
  rewrite bind_run, modify_callable_untouched by (by apply Hother).
  rewrite bind_run. unfold modify_name at 1. rewrite Hother, ret_run by done.
  rewrite bind_run. unfold modify_misfire_grace_time at 1.
  rewrite Hother, ret_run by done.
  rewrite bind_run. unfold modify_coalesce at 1.
  rewrite Hother, ret_run by done.
  rewrite bind_run. unfold modify_max_instances at 1.
  rewrite Hother, ret_run by done.
  rewrite bind_run. unfold modify_trigger at 1. rewrite Hother, ret_run by done.
  rewrite bind_run. unfold modify_executor at 1.
  rewrite Hother, ret_run by done.
  rewrite bind_run. unfold modify_next_run_time at 1.
  assert (changes l0 !! "next_run_time" = Some v) as ->
    by apply lookup_singleton_eq.
  cbv zeta. rewrite bind_run. unfold scheduler_timezone.
  rewrite (bind_getattr _ _ _ _ Hsched), ret_run.
  rewrite bind_run. unfold lift. rewrite Hconv, !ret_run.
  unfold reject_leftovers, approve, pop, l0. cbn [changes approved app].
  rewrite delete_singleton_eq, map_to_list_empty. cbn [nonempty].
  rewrite ret_run. cbn [approved commit].
  rewrite bind_setattr by reflexivity. reflexivity.
Qed.

(** ** Construction *)

Lemma modify_rejects_unknown `{Util} (proposal : gmap string pyval)
    (self self' : Job) (key : string) :
  _modify proposal self = (Ok tt, self') ->
  key ∉ modifiable ->
  proposal !! key = None.
Proof.
  intros Hrun Hout. pose proof (modify_run proposal self) as Hpost.
  rewrite Hrun in Hpost. destruct Hpost as (Hkeys & _).
  destruct (proposal !! key) as [v|] eqn:Hv; [| done].
  destruct (Hkeys key v Hv) as (stored & _ & Hacc).
  destruct Hout. by eapply accepted_modifiable.
Qed.

(** X6.  A construction that returns has given the job a non-empty string
    as its [id]: the one passed in if it counts as true, a generated one
    otherwise.  The instance had no [id] before, it now knows its
    scheduler, it is pending, and slots that were in their domains still
    are. *)
Theorem init_establishes `{Util} (scheduler id : pyval)
    (kwargs : gmap string pyval) (uuid4_hex : string) (self self' : Job) :
  uuid4_hex <> "" ->
  __init__ scheduler id kwargs uuid4_hex self = (Ok tt, self') ->
  self !! "id" = None /\
  (exists s, self' !! "id" = Some (VStr s) /\ s <> "" /\
             VStr s = if truthy id then id else VStr uuid4_hex) /\
  self' !! "_scheduler" = Some scheduler /\
  pending self' = (Ok true, self') /\
  (well_formed self -> well_formed self').
Proof.
  intros Hhex Hrun. unfold __init__ in Hrun.
  rewrite !bind_setattr in Hrun by reflexivity.
  set (self2 := <["_jobstore_alias" := VNone]>
                  (<["_scheduler" := scheduler]> self)) in *.
  set (idv := if truthy id then id else VStr uuid4_hex) in *.
  pose proof (modify_run (<["id" := idv]> kwargs) self2) as Hpost.
  rewrite Hrun in Hpost. destruct Hpost as (Hkeys & _ & Hrest).
  destruct (Hkeys "id" idv (lookup_insert_eq _ _ _)) as (stored & Hst & Hacc).
  inversion Hacc as [v Hstr Hfree | | | | | | | | | | | | |]; subst.
  assert (forall k, k ∉ modifiable ->
            k ∉ ["func"; "func_ref"; "args"; "kwargs"; "name"] ->
            self' !! k = self2 !! k) as Hbound.
  { intros k Hk Hout. apply Hrest; [| exact Hout].
    by eapply modify_rejects_unknown. }
  assert (("_scheduler" ∉ modifiable) /\ ("_jobstore_alias" ∉ modifiable))
    as [Hs Ha] by (split; apply (bool_decide_unpack _); vm_compute; exact I).
  assert (("_scheduler" ∉ ["func"; "func_ref"; "args"; "kwargs"; "name"]) /\
          ("_jobstore_alias" ∉ ["func"; "func_ref"; "args"; "kwargs"; "name"]))
    as [Hs' Ha']
    by (split; apply (bool_decide_unpack _); vm_compute; exact I).
  split; [| split; [| split; [| split]]].
  - unfold self2 in Hfree. by rewrite !lookup_insert_ne in Hfree by done.
  - unfold idv in *. destruct (truthy id) eqn:Htrue.
    + destruct id as [ | | | s | | | | | | | | ]; try discriminate.
      exists s. repeat split; try done.
      intros ->. discriminate.
    + by exists uuid4_hex.
  - rewrite (Hbound _ Hs Hs'). unfold self2.
    by rewrite lookup_insert_ne, lookup_insert_eq.
  - unfold pending.
    assert (self' !! "_jobstore_alias" = Some VNone) as Halias
      by (rewrite (Hbound _ Ha Ha'); apply lookup_insert_eq).
    by rewrite (bind_getattr _ _ _ _ Halias).
  - intros Hwf key v Hv.
    destruct (modify_written_value _ self2 self' key v Hrun Hv)
      as [Hold | Hok]; [| exact Hok].
    unfold self2 in Hold.
    destruct (decide (key = "_jobstore_alias")) as [-> | ?]; [done |].
    destruct (decide (key = "_scheduler")) as [-> | ?]; [done |].
    rewrite !lookup_insert_ne in Hold by done. by apply (Hwf key v).
Qed.

Lemma init_establishes_witness :
  (∅ : Job) !! "id" = None /\
  (exists s, built_job !! "id" = Some (VStr s) /\ s <> "" /\
             VStr s = if truthy (VStr "") then VStr "" else VStr "9f1c") /\
  built_job !! "_scheduler" = Some (VScheduler VNone) /\
  pending built_job = (Ok true, built_job) /\
  (well_formed ∅ -> well_formed built_job).
Proof.
  apply (init_establishes (H := sample_util) (VScheduler VNone) (VStr "")
           first_batch "9f1c" ∅ built_job).
  - intros [=].
  - vm_compute. reflexivity.
Defined.

(** ** More on the enumeration *)

Lemma run_times_loop_extends (fuel : nat) (now : Z) :
  forall self acc next result stop s,
    run_times_loop fuel now acc next self = (Ok (Some (result, stop)), s) ->
    exists more, result = acc ++ more.
Proof.
  induction fuel as [|fuel IH]; intros self acc next result stop s Hrun;
    simpl in Hrun; [discriminate |].
  destruct (truthy next).
  2: { injection Hrun as <- <- <-. exists []. by rewrite app_nil_r. }
  rewrite bind_run in Hrun.
  destruct (datetime_le next now self) as [[[|]|e] s1]; [| | discriminate].
  2: { injection Hrun as <- <- <-. exists []. by rewrite app_nil_r. }
  rewrite bind_run in Hrun.
  destruct (getattr "trigger" s1) as [[trigger|e] s2]; [| discriminate].
  rewrite bind_run in Hrun.
  destruct (call_get_next_fire_time trigger (datetime_value next) now s2)
    as [[next'|e] s3]; [| discriminate].
  destruct (IH _ _ _ _ _ _ Hrun) as (more & ->).
  exists (next :: more). by rewrite <- (assoc_L (++)).
Qed.

(** X7.  A job whose next run time is [None] (a paused job) or lies after
    [now] has nothing due: the enumeration answers the empty list without
    asking the trigger, whatever the [trigger] slot holds.  Conversely the
    empty list is answered in these two cases only. *)
Theorem get_run_times_nothing_due (fuel : nat) (now : Z) (start : option Z)
    (self : Job) :
  self !! "next_run_time" = Some (datetime_or_none start) ->
  (match start with Some t => now < t | None => True end ->
   _get_run_times (S fuel) now self = (Ok (Some []), self)) /\
  (forall s, _get_run_times fuel now self = (Ok (Some []), s) ->
   match start with Some t => now < t | None => True end).
Proof.
  intros Hnext. unfold _get_run_times.
  rewrite !(bind_getattr _ _ _ _ Hnext). split.
  - intros Hlate. rewrite bind_run. destruct start as [t|]; simpl.
    + rewrite bind_run. simpl. by destruct (Z.leb_spec t now); [lia |].
    + reflexivity.
  - intros s Hrun. rewrite bind_run in Hrun.
    destruct start as [t|]; [| done].
    destruct (Z.lt_ge_cases now t) as [| Hdue]; [done |]. exfalso.
    destruct fuel as [|fuel]; [discriminate |]. simpl in Hrun.
    rewrite bind_run in Hrun. simpl in Hrun.
    destruct (Z.leb_spec t now); [| lia].
    rewrite bind_run in Hrun.
    destruct (getattr "trigger" self) as [[trigger|e] s2]; [| discriminate].
    rewrite bind_run in Hrun.
    destruct (call_get_next_fire_time trigger t now s2)
      as [[next'|e] s3]; [| discriminate].
    destruct (run_times_loop fuel now [VDatetime t] next' s3)
      as [[[[result stop]|]|e] s4] eqn:Hloop; try discriminate.
    destruct (run_times_loop_extends _ _ _ _ _ _ _ _ Hloop) as (more & ->).
    discriminate.
Qed.

Lemma get_run_times_nothing_due_witness :
  _get_run_times 1 (clock 9 0) sample_job = (Ok (Some []), sample_job).
Proof.
  refine (proj1 (get_run_times_nothing_due 0 (clock 9 0) (Some (clock 10 0))
                   sample_job _) _).
  - reflexivity.
  - by vm_compute.
Defined.

(** X8.  Strict monotonicity is needed for the enumeration to end: with a
    trigger that answers its own reference point the loop of
    [_get_run_times] runs for as long as it is let, on every job that is
    due. *)
Theorem get_run_times_stuck_trigger (trig : Z -> Z -> option Z) (now t : Z)
    (self : Job) :
  self !! "trigger" = Some (VTrigger trig) ->
  self !! "next_run_time" = Some (VDatetime t) ->
  t <= now ->
  trig t now = Some t ->
  forall fuel, _get_run_times fuel now self = (Ok None, self).
Proof.
  intros Htrig Hnext Hdue Hstuck fuel. unfold _get_run_times.
  rewrite (bind_getattr _ _ _ _ Hnext), bind_run.
  assert (forall acc, run_times_loop fuel now acc (VDatetime t) self =
                      (Ok None, self)) as ->; [| reflexivity].
  induction fuel as [|fuel IH]; intros acc; [reflexivity |]. simpl.
  rewrite bind_run. simpl. destruct (Z.leb_spec t now); [| lia].
  rewrite (bind_getattr _ _ _ _ Htrig), bind_run. simpl.
  rewrite Hstuck. apply IH.
Qed.

Lemma get_run_times_stuck_trigger_witness :
  _get_run_times 1000 5
    (list_to_map [("trigger", VTrigger (fun previous _ => Some previous));
                  ("next_run_time", VDatetime 3)]) =
  (Ok None,
   list_to_map [("trigger", VTrigger (fun previous _ => Some previous));
                ("next_run_time", VDatetime 3)]).
Proof.
  apply (get_run_times_stuck_trigger (fun previous _ => Some previous) 5 3);
    [reflexivity | reflexivity | lia | reflexivity].
Defined.

(** X9.  What the enumeration needs of the job: without a [next_run_time]
    slot it raises [AttributeError]; when a run time is due and the
    [trigger] slot is unassigned or holds something that is no trigger, it
    raises [AttributeError] too.  In each case nothing is written. *)
Theorem get_run_times_missing_slots (fuel : nat) (now : Z) (self : Job) :
  (self !! "next_run_time" = None ->
   _get_run_times fuel now self =
     (Raise (AttributeError "next_run_time"), self)) /\
  (forall t, self !! "next_run_time" = Some (VDatetime t) -> t <= now ->
     (self !! "trigger" = None ->
      _get_run_times (S fuel) now self =
        (Raise (AttributeError "trigger"), self)) /\
     (forall v, self !! "trigger" = Some v -> is_trigger v = false ->
      _get_run_times (S fuel) now self =
        (Raise (AttributeError "get_next_fire_time"), self))).
Proof.
  unfold _get_run_times. split.
  - intros Hnone. rewrite bind_run. unfold getattr. by rewrite Hnone.
  - intros t Hnext Hdue. rewrite !(bind_getattr _ _ _ _ Hnext). split.
    + intros Hnone. rewrite bind_run. simpl. rewrite bind_run. simpl.
      destruct (Z.leb_spec t now); [| lia].
      rewrite bind_run. unfold getattr. by rewrite Hnone.
    + intros v Hv Hnot. rewrite bind_run. simpl. rewrite bind_run. simpl.
      destruct (Z.leb_spec t now); [| lia].
      rewrite (bind_getattr _ _ _ _ Hv), bind_run.
      by destruct v.
Qed.

Lemma get_run_times_missing_slots_witness :
  _get_run_times 1 (clock 10 12) (delete "trigger" sample_job) =
  (Raise (AttributeError "trigger"), delete "trigger" sample_job).
Proof.
  refine (proj1 (proj2 (get_run_times_missing_slots 0 (clock 10 12)
                          (delete "trigger" sample_job))
                   (clock 10 0) _ _) _).
  - reflexivity.
  - by vm_compute.
  - reflexivity.
Defined.

(** X10.  How enumeration and mutation compose, as a scheduler uses them:
    enumerate at [now], commit the value the walk stopped at through
    [_modify(next_run_time=...)], enumerate again at a later [now'].  With a
    strictly monotonic trigger the second enumeration returns only times
    after [now], so none of the times returned first comes back. *)
Theorem enumerate_commit_enumerate `{Util} (trig : Z -> Z -> option Z)
    (now now' : Z) (start stop : option Z) (ts : list Z) (tz : pyval)
    (self : Job) :
  strictly_monotonic trig ->
  self !! "trigger" = Some (VTrigger trig) ->
  self !! "_scheduler" = Some (VScheduler tz) ->
  self !! "next_run_time" = Some (datetime_or_none start) ->
  due_chain trig now start ts stop ->
  convert_to_datetime (datetime_or_none stop) tz "next_run_time" =
    inr (datetime_or_none stop) ->
  now <= now' ->
  exists self2 ts' stop',
    _modify {[ "next_run_time" := datetime_or_none stop ]} self =
      (Ok tt, self2) /\
    due_chain trig now' stop ts' stop' /\
    (forall fuel, (length ts' < fuel)%nat ->
       _get_run_times fuel now' self2 =
         (Ok (Some (VDatetime <$> ts')), self2)) /\
    Forall (fun t => now < t) ts' /\
    (forall t, t ∈ ts -> t ∉ ts').
Proof.
  intros Hmono Htrig Hsched Hnext Hchain Hconv Hlater.
  destruct (due_chain_exists trig now' stop Hmono) as (ts' & stop' & Hchain').
  exists (<["next_run_time" := datetime_or_none stop]> self), ts', stop'.
  assert (Forall (fun t => now < t) ts') as Hafter.
  { apply Forall_forall. intros x Hx.
    destruct (due_chain_bounds trig now' stop stop' ts' Hchain' x Hx)
      as (_ & s & Hs).
    pose proof (due_chain_from trig now' stop stop' ts' Hmono Hchain' s x Hs Hx).
    destruct (due_chain_stop trig now start stop ts Hchain)
      as [Hstop | (t & Hstop & Hlt)]; [congruence |].
    assert (s = t) as -> by congruence. lia. }
  split; [by apply (modify_next_run_time_only self _ tz) |].
  split; [exact Hchain' |]. split; [| split; [exact Hafter |]].
  - intros fuel Hfuel.
    apply (get_run_times_enough trig now' stop stop' ts'); try done.
    + by rewrite lookup_insert_ne.
    + apply lookup_insert_eq.
  - intros t Ht Ht'.
    destruct (due_chain_bounds trig now start stop ts Hchain t Ht) as (Hle & _).
    rewrite Forall_forall in Hafter. specialize (Hafter t Ht'). lia.
Qed.

Lemma enumerate_commit_enumerate_witness :
  exists self2 ts' stop',
    _modify (U := sample_util)
      {[ "next_run_time" := datetime_or_none (Some (clock 10 20)) ]}
      sample_job = (Ok tt, self2) /\
    due_chain scenario_trigger (clock 10 21) (Some (clock 10 20)) ts' stop' /\
    (forall fuel, (length ts' < fuel)%nat ->
       _get_run_times fuel (clock 10 21) self2 =
         (Ok (Some (VDatetime <$> ts')), self2)) /\
    Forall (fun t => clock 10 12 < t) ts' /\
    (forall t, t ∈ [clock 10 0; clock 10 5; clock 10 10] -> t ∉ ts').
Proof.
  apply (enumerate_commit_enumerate (H := sample_util) scenario_trigger
           (clock 10 12) (clock 10 21) (Some (clock 10 0))
           (Some (clock 10 20)) [clock 10 0; clock 10 5; clock 10 10]
           VNone sample_job).
  - exact scenario_trigger_monotonic.
  - reflexivity.
  - reflexivity.
  - reflexivity.
  - exact scenario_chain.
  - reflexivity.
  - by vm_compute.
Defined.

(** ** More on pickling *)

Lemma restore_inv `{Util} {B : Type} (attr key : string)
    (state : gmap string pyval) (k : unit -> M B) (self s : Job) (b : B) :
  is_slot attr = true ->
  (restore attr key state ≫= k) self = (Ok b, s) ->
  exists v, state !! key = Some v /\
            default VNone (state !! key) = v /\
            k tt (<[attr := v]> self) = (Ok b, s).
Proof.
  intros Hslot Hrun. rewrite bind_run in Hrun. unfold restore, getitem in Hrun.
  destruct (state !! key) as [v|] eqn:Hv.
  - rewrite bind_ret in Hrun. unfold setattr in Hrun. rewrite Hslot in Hrun.
    by exists v.
  - discriminate.
Qed.

(** The restoration of the fields, when it goes through. *)
Lemma restore_fields_inv `{Util} (state : gmap string pyval)
    (self restored : Job) :
  restore_fields state self = (Ok tt, restored) ->
  (forall key, key ∈ "func" :: snapshot_slots -> is_Some (state !! key)) /\
  exists ref func,
    state !! "func" = Some ref /\ ref_to_obj ref = inr func /\
    restored = restored_from state func self.
Proof.
  intros Hrun. unfold restore_fields in Hrun.
  apply restore_inv in Hrun as (id & Hid & Did & Hrun); [| done].
  apply restore_inv in Hrun as (ref & Href & Dref & Hrun); [| done].
  rewrite (bind_getattr "func_ref" ref) in Hrun by apply lookup_insert_eq.
  rewrite bind_run in Hrun. unfold lift at 1 in Hrun.
  destruct (ref_to_obj ref) as [e|func] eqn:Hresolve; [discriminate |].
  rewrite ret_run, bind_setattr in Hrun by reflexivity.
  apply restore_inv in Hrun as (trigger & Htrigger & Dtrigger & Hrun); [| done].
  apply restore_inv in Hrun as (executor & Hexecutor & Dexecutor & Hrun);
    [| done].
  apply restore_inv in Hrun as (args & Hargs & Dargs & Hrun); [| done].
  apply restore_inv in Hrun as (kwargs & Hkwargs & Dkwargs & Hrun); [| done].
  apply restore_inv in Hrun as (name & Hname & Dname & Hrun); [| done].
  apply restore_inv in Hrun as (misfire & Hmisfire & Dmisfire & Hrun);
    [| done].
  apply restore_inv in Hrun as (coalesce & Hcoalesce & Dcoalesce & Hrun);
    [| done].
  apply restore_inv in Hrun as (instances & Hinstances & Dinstances & Hrun);
    [| done].
  unfold restore, getitem in Hrun.
  destruct (state !! "next_run_time") as [next|] eqn:Hnext; [| discriminate].
  rewrite bind_ret in Hrun. unfold setattr in Hrun. simpl in Hrun.
  injection Hrun as <-.
  split.
  - intros key Hkey.
    repeat (apply elem_of_cons in Hkey as [-> | Hkey]);
      [.. | by apply elem_of_nil in Hkey]; eauto.
  - exists ref, func. split; [done |]. split; [done |].
    unfold restored_from. cbv zeta.
    by rewrite Did, Dref, Dtrigger, Dexecutor, Dargs, Dkwargs, Dname,
      Dmisfire, Dcoalesce, Dinstances, Hnext.
Qed.

Lemma restore_fields_run `{Util} (state : gmap string pyval) (self : Job)
    (ref func : pyval) :
  (forall key, key ∈ "func" :: snapshot_slots -> is_Some (state !! key)) ->
  state !! "func" = Some ref ->
  ref_to_obj ref = inr func ->
  restore_fields state self = (Ok tt, restored_from state func self).
Proof.
  intros Hkeys Href Hresolve.
  assert (forall key, In key ("func" :: snapshot_slots) ->
            state !! key = Some (default VNone (state !! key))) as Hget.
  { intros key Hkey. apply list_elem_of_In in Hkey.
    by destruct (Hkeys key Hkey) as [v ->]. }
  unfold restore_fields, restored_from. cbv zeta.
  rewrite (bind_restore "id" "id" _ state _ self (Hget "id" ltac:(simpl; tauto)))
    by reflexivity.
  rewrite (bind_restore "func_ref" "func" _ state _ _
             (Hget "func" ltac:(simpl; tauto))) by reflexivity.
  rewrite (bind_getattr "func_ref" (default VNone (state !! "func")))
    by apply lookup_insert_eq.
  assert (default VNone (state !! "func") = ref) as Dref by (by rewrite Href).
  rewrite bind_run. unfold lift at 1.
  rewrite Dref, Hresolve, ret_run, bind_setattr by reflexivity.
  rewrite (bind_restore "trigger" "trigger" _ state _ _
             (Hget "trigger" ltac:(simpl; tauto))) by reflexivity.
  rewrite (bind_restore "executor" "executor" _ state _ _
             (Hget "executor" ltac:(simpl; tauto))) by reflexivity.
  rewrite (bind_restore "args" "args" _ state _ _
             (Hget "args" ltac:(simpl; tauto))) by reflexivity.
  rewrite (bind_restore "kwargs" "kwargs" _ state _ _
             (Hget "kwargs" ltac:(simpl; tauto))) by reflexivity.
  rewrite (bind_restore "name" "name" _ state _ _
             (Hget "name" ltac:(simpl; tauto))) by reflexivity.
  rewrite (bind_restore "misfire_grace_time" "misfire_grace_time" _ state _ _
             (Hget "misfire_grace_time" ltac:(simpl; tauto))) by reflexivity.
  rewrite (bind_restore "coalesce" "coalesce" _ state _ _
             (Hget "coalesce" ltac:(simpl; tauto))) by reflexivity.
  rewrite (bind_restore "max_instances" "max_instances" _ state _ _
             (Hget "max_instances" ltac:(simpl; tauto))) by reflexivity.
  apply (restore_run "next_run_time" "next_run_time");
    [apply (Hget "next_run_time"); simpl; tauto | reflexivity].
Qed.

Lemma version_test `{Util} (state : gmap string pyval) (self : Job) :
  match state !! "version" with
  | Some v =>
      if is_int v then
        if 1 <? int_value v
        then __setstate__ state self = (Raise version_error, self)
        else __setstate__ state self = restore_fields state self
      else __setstate__ state self =
             (Raise (TypeError "'>' not supported"), self)
  | None => __setstate__ state self = restore_fields state self
  end.
Proof.
  unfold __setstate__. rewrite bind_run.
  destruct (state !! "version") as [v|]; [| reflexivity].
  simpl. unfold gt_one. destruct (is_int v); [| reflexivity].
  rewrite ret_run. by destruct (1 <? int_value v).
Qed.

Ltac read_in H self name v Hv :=
  destruct (self !! name) as [v|] eqn:Hv;
  [ rewrite (bind_getattr name v _ _ Hv) in H
  | rewrite bind_run in H; unfold getattr at 1 in H; rewrite Hv in H;
    discriminate H ].

(** A [__getstate__] that answered. *)
Lemma getstate_inv (self s : Job) (state : gmap string pyval) :
  __getstate__ self = (Ok state, s) ->
  s = self /\
  (exists ref, self !! "func_ref" = Some ref /\ truthy ref = true) /\
  (forall key, key ∈ snapshot_slots -> is_Some (self !! key)) /\
  state = snapshot_of self.
Proof.
  intros Hrun. unfold __getstate__ in Hrun.
  read_in Hrun self "func_ref" ref Href.
  destruct (truthy ref) eqn:Htrue; cbn [negb] in Hrun.
  2: { rewrite bind_run in Hrun.
       by destruct (getattr "func" self) as [[?|?] ?]. }
  read_in Hrun self "id" job_id Hid.
  rewrite (bind_getattr "func_ref" ref _ _ Href) in Hrun.
  read_in Hrun self "trigger" trigger Htrigger.
  read_in Hrun self "executor" executor Hexecutor.
  read_in Hrun self "args" args Hargs.
  read_in Hrun self "kwargs" kwargs Hkwargs.
  read_in Hrun self "name" name Hname.
  read_in Hrun self "misfire_grace_time" misfire Hmisfire.
  read_in Hrun self "coalesce" coalesce Hcoalesce.
  read_in Hrun self "max_instances" instances Hinstances.
  read_in Hrun self "next_run_time" next Hnext.
  rewrite ret_run in Hrun. injection Hrun as <- <-.
  split; [done |]. split; [by exists ref |]. split.
  - intros key Hkey.
    repeat (apply elem_of_cons in Hkey as [-> | Hkey]);
      [.. | by apply elem_of_nil in Hkey]; eauto.
  - unfold snapshot_of. cbv zeta.
    by rewrite Href, Hid, Htrigger, Hexecutor, Hargs, Hkwargs, Hname,
      Hmisfire, Hcoalesce, Hinstances, Hnext.
Qed.

Lemma getstate_run (self : Job) (ref : pyval) :
  self !! "func_ref" = Some ref ->
  truthy ref = true ->
  (forall key, key ∈ snapshot_slots -> is_Some (self !! key)) ->
  __getstate__ self = (Ok (snapshot_of self), self).
Proof.
  intros Href Htrue Hkeys.
  destruct (getstate_referenced self ref Href Htrue)
    as [(state & Hrun) | (slot & Hrun)].
  - destruct (getstate_inv self self state Hrun) as (_ & _ & _ & ->). done.
  - exfalso. unfold __getstate__ in Hrun.
    rewrite (bind_getattr _ _ _ _ Href), Htrue in Hrun. cbn [negb] in Hrun.
    assert (forall key, In key snapshot_slots -> is_Some (self !! key)) as Hget
      by (intros key Hkey; apply Hkeys; by apply list_elem_of_In).
    repeat match type of Hrun with
      | context [(getattr ?name ≫= _) self] =>
          let v := fresh "v" in
          let Hv := fresh "Hv" in
          first
            [ rewrite (bind_getattr name ref _ _ Href) in Hrun
            | destruct (Hget name ltac:(simpl; tauto)) as [v Hv];
              rewrite (bind_getattr name v _ _ Hv) in Hrun ]
      end.
    discriminate.
Qed.

(** X11.  When [__getstate__] answers and when it does not: it answers
    exactly for a job whose reference counts as true and whose ten
    snapshot slots are all assigned, it answers [snapshot_of] the job, and
    it leaves the job as it is. *)
Theorem getstate_answers_iff (self s : Job) (state : gmap string pyval) :
  __getstate__ self = (Ok state, s) <->
  s = self /\
  (exists ref, self !! "func_ref" = Some ref /\ truthy ref = true) /\
  (forall key, key ∈ snapshot_slots -> is_Some (self !! key)) /\
  state = snapshot_of self.
Proof.
  split.
  - apply getstate_inv.
  - intros (-> & (ref & Href & Htrue) & Hkeys & ->).
    by apply (getstate_run self ref).
Qed.

(** X12.  What a snapshot holds: the version tag 1, under [func] the
    textual reference and not the callable, the ten fields under their own
    names, and no other key; the scheduler and the store alias are not in
    it. *)
Theorem getstate_layout (self s : Job) (state : gmap string pyval) :
  __getstate__ self = (Ok state, s) ->
  state !! "version" = Some (VInt 1) /\
  state !! "func" = self !! "func_ref" /\
  (forall key, key ∈ snapshot_slots -> state !! key = self !! key) /\
  dom state = list_to_set snapshot_keys /\
  state !! "_scheduler" = None /\ state !! "_jobstore_alias" = None.
Proof.
  intros Hrun.
  destruct (getstate_inv self s state Hrun)
    as (_ & (ref & Href & _) & Hkeys & ->).
  assert (forall key, In key snapshot_slots ->
            self !! key = Some (default VNone (self !! key))) as Hget.
  { intros key Hkey. apply list_elem_of_In in Hkey.
    by destruct (Hkeys key Hkey) as [v ->]. }
  split; [reflexivity |].
  split; [unfold snapshot_of; cbv zeta; rewrite Href; reflexivity |].
  split; [| split; [| split; reflexivity]].
  - intros key Hkey. apply list_elem_of_In in Hkey.
    rewrite (Hget key Hkey). simpl in Hkey.
    destruct Hkey as [<- | [<- | [<- | [<- | [<- | [<- | [<- | [<- | [<- |
                     [<- | []]]]]]]]]]]; reflexivity.
  - unfold snapshot_of. cbv zeta. rewrite dom_list_to_map_L. reflexivity.
Qed.

Lemma getstate_layout_witness :
  snapshot_of sample_job !! "version" = Some (VInt 1) /\
  snapshot_of sample_job !! "func" = sample_job !! "func_ref" /\
  (forall key, key ∈ snapshot_slots ->
     snapshot_of sample_job !! key = sample_job !! key) /\
  dom (snapshot_of sample_job) = list_to_set snapshot_keys /\
  snapshot_of sample_job !! "_scheduler" = None /\
  snapshot_of sample_job !! "_jobstore_alias" = None.
Proof.
  apply (getstate_layout sample_job sample_job).
  apply (getstate_run sample_job (VStr "tasks:tick")); try reflexivity.
  intros key Hkey.
  repeat (apply elem_of_cons in Hkey as [-> | Hkey]);
    [.. | by apply elem_of_nil in Hkey]; eexists; reflexivity.
Defined.

(** X13.  When [__setstate__] succeeds and what it builds, for a
    snapshot whose version tag is absent or an integer.  It succeeds
    exactly when the tag is absent or at most 1, the snapshot has the
    eleven keys the method reads, and its reference resolves; the slots
    are then the values of the snapshot as they are, none of them
    validated, and the callable is the resolved one. *)
Theorem setstate_succeeds_iff `{Util} (state : gmap string pyval)
    (self restored : Job) :
  integer_tag state = true ->
  __setstate__ state self = (Ok tt, restored) <->
  version_passes state /\
  (forall key, key ∈ "func" :: snapshot_slots -> is_Some (state !! key)) /\
  exists ref func,
    state !! "func" = Some ref /\ ref_to_obj ref = inr func /\
    restored = restored_from state func self.
Proof.
  intros Htag.
  pose proof (version_test state self) as Htest.
  unfold version_passes. unfold integer_tag in Htag.
  split.
  - intros Hrun.
    destruct (state !! "version") as [v|].
    + rewrite Htag in Htest.
      destruct (Z.ltb_spec 1 (int_value v)); [congruence |].
      rewrite Htest in Hrun. split; [done |]. by apply restore_fields_inv.
    + rewrite Htest in Hrun. split; [done |]. by apply restore_fields_inv.
  - intros (Hversion & Hkeys & ref & func & Href & Hresolve & ->).
    destruct (state !! "version") as [v|].
    + destruct Hversion as [Hint Hle]. rewrite Hint in Htest.
      destruct (Z.ltb_spec 1 (int_value v)); [lia |].
      rewrite Htest. by apply (restore_fields_run state self ref).
    + rewrite Htest. by apply (restore_fields_run state self ref).
Qed.

Lemma setstate_succeeds_iff_witness :
  __setstate__ (U := sample_util) (<["version" := VInt 0]> untagged_snapshot) ∅
  = (Ok tt,
     restored_from (<["version" := VInt 0]> untagged_snapshot) (VFunc 1) ∅) <->
  version_passes (<["version" := VInt 0]> untagged_snapshot) /\
  (forall key, key ∈ "func" :: snapshot_slots ->
     is_Some ((<["version" := VInt 0]> untagged_snapshot) !! key)) /\
  exists ref func,
    (<["version" := VInt 0]> untagged_snapshot) !! "func" = Some ref /\
    ref_to_obj (Util := sample_util) ref = inr func /\
    restored_from (<["version" := VInt 0]> untagged_snapshot) (VFunc 1) ∅ =
    restored_from (<["version" := VInt 0]> untagged_snapshot) func ∅.
Proof.
  apply (setstate_succeeds_iff (H := sample_util)
           (<["version" := VInt 0]> untagged_snapshot) ∅).
  reflexivity.
Defined.

(** X14.  A load that fails is not undone.  A snapshot without an [id]
    raises [KeyError] with nothing assigned; a snapshot whose reference
    does not resolve raises what [ref_to_obj] raises, with [id] and
    [func_ref] already assigned. *)
Theorem setstate_failure_is_partial `{Util} (state : gmap string pyval)
    (self : Job) :
  version_passes state ->
  (state !! "id" = None ->
   __setstate__ state self = (Raise (KeyError "id"), self)) /\
  (forall job_id ref e,
     state !! "id" = Some job_id ->
     state !! "func" = Some ref ->
     ref_to_obj ref = inl e ->
     __setstate__ state self =
       (Raise e, <["func_ref" := ref]> (<["id" := job_id]> self))).
Proof.
  intros Hversion.
  assert (__setstate__ state self = restore_fields state self) as ->.
  { pose proof (version_test state self) as Htest.
    unfold version_passes in Hversion.
    destruct (state !! "version") as [v|]; [| done].
    destruct Hversion as [Hint Hle]. rewrite Hint in Htest.
    by destruct (Z.ltb_spec 1 (int_value v)); [lia |]. }
  unfold restore_fields. split.
  - intros Hnone. rewrite bind_run. unfold restore, getitem.
    by rewrite Hnone.
  - intros job_id ref e Hid Href Hresolve.
    rewrite (bind_restore "id" "id" job_id) by done.
    rewrite (bind_restore "func_ref" "func" ref) by done.
    rewrite (bind_getattr "func_ref" ref) by apply lookup_insert_eq.
    rewrite bind_run. unfold lift. by rewrite Hresolve.
Qed.

Lemma setstate_failure_is_partial_witness :
  __setstate__ (U := sample_util)
    (list_to_map [("id", VStr "job-9"); ("func", VStr "tasks:gone")]) ∅ =
  (Raise (OtherError "LookupError"),
   <["func_ref" := VStr "tasks:gone"]> (<["id" := VStr "job-9"]> ∅)).
Proof.
  refine (proj2 (setstate_failure_is_partial (H := sample_util)
                   (list_to_map [("id", VStr "job-9");
                                 ("func", VStr "tasks:gone")]) ∅ _)
            (VStr "job-9") (VStr "tasks:gone") (OtherError "LookupError")
            _ _ _).
  - exact I.
  - reflexivity.
  - reflexivity.
  - reflexivity.
Defined.

(** X15.  The version tag at its edges.  An integer tag of at most 1,
    zero, the negatives and the two [bool]s included, makes [__setstate__]
    do what it does for the tag 1; a tag that is [None], a string, a
    tuple, a list or a dictionary makes the comparison itself raise
    [TypeError], before anything is assigned. *)
Theorem setstate_version_tag `{Util} (state : gmap string pyval) (self : Job)
    (v : pyval) :
  state !! "version" = Some v ->
  (is_int v = true -> int_value v <= 1 ->
   __setstate__ state self =
   __setstate__ (<["version" := VInt 1]> state) self) /\
  (unordered v = true ->
   __setstate__ state self = (Raise (TypeError "'>' not supported"), self)).
Proof.
  intros Hv. pose proof (version_test state self) as Htest.
  rewrite Hv in Htest. split.
  - intros Hint Hle. rewrite Hint in Htest.
    destruct (Z.ltb_spec 1 (int_value v)); [lia |]. rewrite Htest.
    pose proof (version_test (<["version" := VInt 1]> state) self) as Hone.
    rewrite lookup_insert_eq in Hone. simpl in Hone.
    by rewrite Hone, restore_fields_ignores_version.
  - intros Hkind.
    assert (is_int v = false) as Hint by (by destruct v).
    by rewrite Hint in Htest.
Qed.

Lemma setstate_version_tag_witness :
  __setstate__ (U := sample_util) (<["version" := VStr "1"]> untagged_snapshot) ∅
  = (Raise (TypeError "'>' not supported"), ∅).
Proof.
  refine (proj2 (setstate_version_tag (H := sample_util)
                   (<["version" := VStr "1"]> untagged_snapshot) ∅
                   (VStr "1") _) _); reflexivity.
Defined.

Lemma writes_only_readonly {A : Type} (slots : list string) (m : M A) :
  readonly m -> writes_only slots m.
Proof. intros Hm self key _. by rewrite Hm. Qed.

Lemma writes_only_setattr (slots : list string) (name : string) (v : pyval) :
  name ∈ slots -> writes_only slots (setattr name v).
Proof.
  intros Hin self key Hout. unfold setattr.
  destruct (is_slot name); [| reflexivity]. simpl.
  apply lookup_insert_ne. by intros ->.
Qed.

Lemma writes_only_bind {A B : Type} (slots : list string) (m : M A)
    (k : A -> M B) :
  writes_only slots m -> (forall a, writes_only slots (k a)) ->
  writes_only slots (m ≫= k).
Proof.
  intros Hm Hk self key Hout. rewrite bind_run.
  specialize (Hm self key Hout).
  destruct (m self) as [[a|e] self1]; simpl in Hm.
  - by rewrite (Hk a self1 key Hout).
  - exact Hm.
Qed.

Lemma writes_only_restore `{Util} (slots : list string) (attr key : string)
    (state : gmap string pyval) :
  attr ∈ slots -> writes_only slots (restore attr key state).
Proof.
  intros Hin. unfold restore. apply writes_only_bind.
  - apply writes_only_readonly, readonly_getitem.
  - intros v. by apply writes_only_setattr.
Qed.

Lemma writes_only_setstate `{Util} (state : gmap string pyval) :
  writes_only ("func" :: "func_ref" :: snapshot_slots) (__setstate__ state).
Proof.
  assert (forall attr,
            bool_decide (attr ∈ "func" :: "func_ref" :: snapshot_slots) = true ->
            attr ∈ "func" :: "func_ref" :: snapshot_slots) as Hin
    by (intros attr; apply bool_decide_eq_true_1).
  unfold __setstate__. apply writes_only_bind.
  { apply writes_only_readonly, readonly_gt_one. }
  intros [|]; [apply writes_only_readonly, readonly_raise |].
  unfold restore_fields.
  repeat first
    [ apply writes_only_restore; apply Hin; reflexivity
    | apply writes_only_bind; [| intros ?]
    | apply writes_only_setattr; apply Hin; reflexivity
    | apply writes_only_readonly; auto with readonly ].
Qed.

(** X16.  [__setstate__] leaves the binding of the instance alone: the
    scheduler and the store alias are what they were, whether the load
    succeeds or fails.  An instance that had no alias before the load has
    none after it, and asking whether it is pending raises
    [AttributeError]. *)
Theorem setstate_leaves_binding `{Util} (state : gmap string pyval)
    (self : Job) :
  (__setstate__ state self).2 !! "_scheduler" = self !! "_scheduler" /\
  (__setstate__ state self).2 !! "_jobstore_alias" =
    self !! "_jobstore_alias" /\
  (self !! "_jobstore_alias" = None ->
   pending (__setstate__ state self).2 =
     (Raise (AttributeError "_jobstore_alias"), (__setstate__ state self).2)).
Proof.
  assert ((__setstate__ state self).2 !! "_jobstore_alias" =
          self !! "_jobstore_alias") as Halias.
  { apply writes_only_setstate.
    apply (bool_decide_unpack _). vm_compute. exact I. }
  split; [| split; [exact Halias |]].
  - apply writes_only_setstate.
    apply (bool_decide_unpack _). vm_compute. exact I.
  - intros Hnone. unfold pending. rewrite bind_run. unfold getattr.
    by rewrite Halias, Hnone.
Qed.

Lemma setstate_leaves_binding_witness :
  pending (__setstate__ (U := sample_util) untagged_snapshot ∅).2 =
  (Raise (AttributeError "_jobstore_alias"),
   (__setstate__ (U := sample_util) untagged_snapshot ∅).2).
Proof.
  apply (proj2 (proj2 (setstate_leaves_binding (H := sample_util)
                         untagged_snapshot ∅))).
  reflexivity.
Defined.

Lemma restored_from_slots (state : gmap string pyval) (func : pyval)
    (self : Job) :
  restored_from state func self !! "func_ref" =
    Some (default VNone (state !! "func")) /\
  forall key, key ∈ snapshot_slots ->
    restored_from state func self !! key =
      Some (default VNone (state !! key)).
Proof.
  unfold restored_from. cbv zeta. split.
  - by rewrite !lookup_insert_ne, lookup_insert_eq by done.
  - intros key Hkey.
    repeat (apply elem_of_cons in Hkey as [-> | Hkey]);
      [.. | by apply elem_of_nil in Hkey];
      repeat (rewrite lookup_insert_ne by done); by rewrite lookup_insert_eq.
Qed.

Lemma restored_from_func (state : gmap string pyval) (func : pyval)
    (self : Job) :
  restored_from state func self !! "func" = Some func.
Proof.
  unfold restored_from. cbv zeta.
  by rewrite !lookup_insert_ne, lookup_insert_eq by done.
Qed.

(** C10.  A snapshot without a version tag passes the version test of
    [__setstate__] and is loaded.  The call does what it does for the same
    snapshot with the tag 1 added; and when the snapshot has the eleven
    keys the method reads and its reference resolves, the call returns
    and the instance holds the values of the snapshot: each of the ten
    fields under its own name, the reference under [func_ref], the
    resolved callable under [func], and every other slot as it was. *)
Theorem setstate_defaults_missing_version `{Util} (state : gmap string pyval)
    (self : Job) :
  state !! "version" = None ->
  __setstate__ state self = __setstate__ (<["version" := VInt 1]> state) self /\
  forall ref func,
    (forall key, key ∈ "func" :: snapshot_slots -> is_Some (state !! key)) ->
    state !! "func" = Some ref ->
    ref_to_obj ref = inr func ->
    exists loaded,
      __setstate__ state self = (Ok tt, loaded) /\
      (forall key, key ∈ snapshot_slots -> loaded !! key = state !! key) /\
      loaded !! "func_ref" = Some ref /\
      loaded !! "func" = Some func /\
      (forall key, key ∉ "func" :: "func_ref" :: snapshot_slots ->
         loaded !! key = self !! key).
Proof.
  intros Hmissing.
  pose proof (version_test state self) as Htest. rewrite Hmissing in Htest.
  split.
  - pose proof (version_test (<["version" := VInt 1]> state) self) as Hone.
    rewrite lookup_insert_eq in Hone. simpl in Hone.
    by rewrite Htest, Hone, restore_fields_ignores_version.
  - intros ref func Hkeys Href Hresolve.
    pose proof (restore_fields_run state self ref func Hkeys Href Hresolve)
      as Hrun.
    rewrite <- Htest in Hrun.
    destruct (restored_from_slots state func self) as (Hslot & Hslots).
    exists (restored_from state func self).
    split; [exact Hrun |]. split; [| split; [| split]].
    + intros key Hkey. rewrite (Hslots key Hkey).
      destruct (Hkeys key) as [v ->]; [apply elem_of_cons; by right | done].
    + by rewrite Hslot, Href.
    + apply restored_from_func.
    + intros key Hout.
      pose proof (writes_only_setstate state self key Hout) as Hkeep.
      by rewrite Hrun in Hkeep.
Qed.

Lemma setstate_defaults_missing_version_witness :
  exists loaded,
    __setstate__ (U := sample_util) untagged_snapshot ∅ = (Ok tt, loaded) /\
    (forall key, key ∈ snapshot_slots ->
       loaded !! key = untagged_snapshot !! key) /\
    loaded !! "func_ref" = Some (VStr "tasks:tick") /\
    loaded !! "func" = Some (VFunc 1) /\
    (forall key, key ∉ "func" :: "func_ref" :: snapshot_slots ->
       loaded !! key = (∅ : Job) !! key).
Proof.
  refine (proj2 (setstate_defaults_missing_version (H := sample_util)
                   untagged_snapshot ∅ _) (VStr "tasks:tick") (VFunc 1) _ _ _).
  - reflexivity.
  - intros key Hkey.
    repeat (apply elem_of_cons in Hkey as [-> | Hkey]);
      [.. | by apply elem_of_nil in Hkey]; eexists; reflexivity.
  - reflexivity.
  - reflexivity.
Defined.

(** ** The [id] of a job *)

(** A [_modify] that returns on a job with an [id] has left the [id] as it
    was. *)
Lemma modify_keeps_id `{Util} (proposal : gmap string pyval)
    (self self' : Job) (v : pyval) :
  self !! "id" = Some v ->
  _modify proposal self = (Ok tt, self') ->
  self' !! "id" = Some v.
Proof.
  intros Hid Hrun. pose proof (modify_run proposal self) as Hpost.
  rewrite Hrun in Hpost. destruct Hpost as (Hkeys & _ & Hrest).
  destruct (proposal !! "id") as [pv|] eqn:Hp.
  - destruct (Hkeys "id" pv Hp) as (stored & _ & Hacc).
    inversion Hacc; congruence.
  - rewrite (Hrest "id" Hp); [done |].
    apply (bool_decide_unpack _). vm_compute. exact I.
Qed.

(** The [id] a construction commits. *)
Lemma init_commits_id `{Util} (scheduler id : pyval)
    (kwargs : gmap string pyval) (uuid4_hex : string) (self self' : Job) :
  uuid4_hex <> "" ->
  __init__ scheduler id kwargs uuid4_hex self = (Ok tt, self') ->
  exists s, self' !! "id" = Some (VStr s) /\ s <> "".
Proof.
  intros Hhex Hrun. unfold __init__ in Hrun.
  rewrite !bind_setattr in Hrun by reflexivity.
  set (self2 := <["_jobstore_alias" := VNone]>
                  (<["_scheduler" := scheduler]> self)) in *.
  set (idv := if truthy id then id else VStr uuid4_hex) in *.
  pose proof (modify_run (<["id" := idv]> kwargs) self2) as Hpost.
  rewrite Hrun in Hpost. destruct Hpost as (Hkeys & _).
  destruct (Hkeys "id" idv (lookup_insert_eq _ _ _)) as (stored & Hst & Hacc).
  inversion Hacc as [v Hstr Hfree | | | | | | | | | | | | |]; subst.
  unfold idv in *. destruct (truthy id) eqn:Htrue.
  - destruct id as [ | | | s | | | | | | | | ]; try discriminate.
    exists s. split; [done |]. intros ->. discriminate.
  - by exists uuid4_hex.
Qed.

(** A load hands over the [id] of the job the snapshot was taken of. *)
Lemma restore_keeps_id `{Util} (source target self' : Job)
    (state : gmap string pyval) (v : pyval) :
  source !! "id" = Some v ->
  __getstate__ source = (Ok state, source) ->
  __setstate__ state target = (Ok tt, self') ->
  self' !! "id" = Some v.
Proof.
  intros Hid Hget Hset.
  destruct (getstate_inv source source state Hget) as (_ & _ & _ & ->).
  pose proof (version_test (snapshot_of source) target) as Htest.
  assert (snapshot_of source !! "version" = Some (VInt 1)) as Hversion
    by reflexivity.
  rewrite Hversion in Htest. simpl in Htest. rewrite Htest in Hset.
  destruct (restore_fields_inv _ target self' Hset)
    as (_ & ref & func & _ & _ & ->).
  destruct (restored_from_slots (snapshot_of source) func target)
    as (_ & Hslots).
  rewrite (Hslots "id") by (apply (bool_decide_unpack _); vm_compute; exact I).
  assert (snapshot_of source !! "id" = Some (default VNone (source !! "id")))
    as -> by reflexivity.
  by rewrite Hid.
Qed.

Lemma reachable_id `{Util} (self : Job) :
  reachable self -> exists s, self !! "id" = Some (VStr s) /\ s <> "".
Proof.
  induction 1 as [scheduler id kwargs uuid4_hex self Hhex Hrun
                 | proposal self self' _ (s & Hid & Hs) Hrun
                 | source target self' state _ (s & Hid & Hs) Hget Hset].
  - by apply (init_commits_id scheduler id kwargs uuid4_hex ∅).
  - exists s. split; [| done]. by apply (modify_keeps_id proposal self).
  - exists s. split; [| done].
    by apply (restore_keeps_id source target self' state).
Qed.



(** X17.  The round trip the other way.  A snapshot of version 1 that has
    the twelve keys and no other, and a reference that counts as true,
    comes back as it was: [__getstate__] of the instance [__setstate__]
    built from it answers that very snapshot. *)
Theorem setstate_getstate_round_trip `{Util} (state : gmap string pyval)
    (target restored : Job) (ref : pyval) :
  __setstate__ state target = (Ok tt, restored) ->
  state !! "version" = Some (VInt 1) ->
  dom state = list_to_set snapshot_keys ->
  state !! "func" = Some ref ->
  truthy ref = true ->
  __getstate__ restored = (Ok state, restored).
Proof.
  intros Hrun Hversion Hdom Href Htrue.
  pose proof (version_test state target) as Htest.
  rewrite Hversion in Htest. simpl in Htest. rewrite Htest in Hrun.
  destruct (restore_fields_inv state target restored Hrun)
    as (Hkeys & ref' & func & _ & _ & ->).
  destruct (restored_from_slots state func target) as (Hslot & Hslots).
  assert (forall key, In key ("func" :: snapshot_slots) ->
            default VNone (state !! key) = default VNone (state !! key) /\
            state !! key = Some (default VNone (state !! key))) as Hget.
  { intros key Hkey. apply list_elem_of_In in Hkey.
    by destruct (Hkeys key Hkey) as [v ->]. }
  rewrite (getstate_run _ ref).
  - assert (snapshot_of (restored_from state func target) = state) as ->;
      [| reflexivity].
    apply map_eq. intros key.
    destruct (decide (key ∈ snapshot_keys)) as [Hin | Hout].
    + unfold snapshot_of. cbv zeta. rewrite Hslot.
      rewrite !Hslots by (apply (bool_decide_unpack _); vm_compute; exact I).
      cbn [default from_option id].
      repeat (apply elem_of_cons in Hin as [-> | Hin]);
        [.. | by apply elem_of_nil in Hin];
        first [ by rewrite Hversion
              | symmetry;
                match goal with
                | |- state !! ?k = _ =>
                    exact (proj2 (Hget k ltac:(simpl; tauto)))
                end ].
    + assert (state !! key = None) as ->
        by (apply not_elem_of_dom; rewrite Hdom; by rewrite elem_of_list_to_set).
      apply not_elem_of_list_to_map_1. simpl.
      unfold snapshot_keys, snapshot_slots in Hout.
      rewrite !not_elem_of_cons in Hout. rewrite !not_elem_of_cons. tauto.
  - rewrite Hslot. by rewrite Href.
  - exact Htrue.
  - intros key Hkey. rewrite (Hslots key Hkey). eauto.
Qed.

Lemma setstate_getstate_round_trip_witness :
  __getstate__
    (restored_from (<["version" := VInt 1]> untagged_snapshot) (VFunc 1) ∅) =
  (Ok (<["version" := VInt 1]> untagged_snapshot),
   restored_from (<["version" := VInt 1]> untagged_snapshot) (VFunc 1) ∅).
Proof.
  apply (setstate_getstate_round_trip (H := sample_util)
           (<["version" := VInt 1]> untagged_snapshot) ∅ _ (VStr "tasks:tick")).
  - apply (restore_fields_run (H := sample_util) _ ∅ (VStr "tasks:tick"));
      [| reflexivity | reflexivity].
    intros key Hkey.
    repeat (apply elem_of_cons in Hkey as [-> | Hkey]);
      [.. | by apply elem_of_nil in Hkey]; eexists; reflexivity.
  - reflexivity.
  - apply (bool_decide_unpack _). vm_compute. exact I.
  - reflexivity.
  - reflexivity.
Defined.

(** ** Equality *)

(** X18.  Two jobs are equal exactly when their ids are: with [==] on
    strings being equality of strings, [__eq__] on two jobs with string ids
    answers whether the two strings are the same, whatever the other slots
    of either job hold, and writes nothing; for an operand that is not a
    [Job] it answers [NotImplemented] without reading a slot. *)
Theorem eq_compares_ids (equal : pyval -> pyval -> bool) (self other : Job)
    (a b : string) :
  (forall s t, equal (VStr s) (VStr t) = bool_decide (s = t)) ->
  self !! "id" = Some (VStr a) ->
  other !! "id" = Some (VStr b) ->
  __eq__ equal (OtherJob other) self = (Ok (Some (bool_decide (a = b))), self) /\
  forall v slots, __eq__ equal (OtherValue v) slots = (Ok None, slots).
Proof.
  intros Hequal Hmine Htheirs. split; [| reflexivity].
  unfold __eq__. rewrite (bind_getattr _ _ _ _ Hmine), Htheirs.
  by rewrite ret_run, Hequal.
Qed.

Lemma eq_compares_ids_witness :
  __eq__ (fun x y => match x, y with
                     | VStr s, VStr t => bool_decide (s = t)
                     | _, _ => false
                     end)
    (OtherJob (<["name" := VStr "tock"]> draft_job)) draft_job =
    (Ok (Some (bool_decide ("job-1" = "job-1"))), draft_job) /\
  forall v slots,
    __eq__ (fun x y => match x, y with
                       | VStr s, VStr t => bool_decide (s = t)
                       | _, _ => false
                       end) (OtherValue v) slots = (Ok None, slots).
Proof.
  apply eq_compares_ids; reflexivity.
Defined.

(** * Properties of the utilities of [headphones/helpers.py] *)

(** ** [cmp] *)

Section Cmp.
Context {T : Type} (lt : T -> T -> bool).
Hypothesis lt_irrefl : forall a, lt a a = false.
Hypothesis lt_trans : forall a b c, lt a b = true -> lt b c = true -> lt a c = true.
Hypothesis lt_total : forall a b, lt a b = true \/ a = b \/ lt b a = true.

Lemma lt_asym a b : lt a b = true -> lt b a = false.
Proof.
  intros Hab. destruct (lt b a) eqn:Hba; [|done].
  by rewrite <- (lt_irrefl a), (lt_trans a b a).
Qed.

Lemma cmp_cases x y :
  (helpers.cmp lt x y = -1 /\ helpers.cmp lt y x = 1 /\ x <> y) \/
  (helpers.cmp lt x y = 0 /\ x = y) \/
  (helpers.cmp lt x y = 1 /\ helpers.cmp lt y x = -1 /\ x <> y).
Proof.
  destruct x as [a|], y as [b|]; simpl; try (by intuition congruence).
  destruct (lt a b) eqn:Hab.
  - left. rewrite (lt_asym _ _ Hab). simpl. repeat split; try done.
    intros [= ->]. by rewrite lt_irrefl in Hab.
  - destruct (lt b a) eqn:Hba.
    + right; right. simpl. repeat split; try done.
      intros [= ->]. by rewrite lt_irrefl in Hba.
    + right; left. split; [done|]. f_equal.
      destruct (lt_total a b) as [|[|]]; congruence.
Qed.
End Cmp.

(** X19.  [cmp] is a three-way comparison with [None] below everything:
    when [<] on the values is a strict total order, swapping the operands
    negates the answer, the answer is 0 exactly for equal operands, nothing
    is below [None], and "below" is transitive, also across [None]. *)
Theorem cmp_three_way {T : Type} (lt : T -> T -> bool)
    (lt_irrefl : forall a, lt a a = false)
    (lt_trans : forall a b c, lt a b = true -> lt b c = true -> lt a c = true)
    (lt_total : forall a b, lt a b = true \/ a = b \/ lt b a = true)
    (x y z : option T) :
  helpers.cmp lt x y = - helpers.cmp lt y x /\
  (helpers.cmp lt x y = 0 <-> x = y) /\
  (helpers.cmp lt x None < 0 -> False) /\
  (helpers.cmp lt x y < 0 -> helpers.cmp lt y z < 0 -> helpers.cmp lt x z < 0).
Proof.
  split; [|split; [|split]].
  - destruct (cmp_cases lt lt_irrefl lt_trans lt_total x y)
      as [(-> & -> & _)|[(-> & ->)|(-> & -> & _)]]; try done.
    destruct y; simpl; [|done]. by rewrite lt_irrefl.
  - destruct (cmp_cases lt lt_irrefl lt_trans lt_total x y)
      as [(-> & _ & ?)|[(-> & ->)|(-> & _ & ?)]]; split; done.
  - destruct x; simpl; lia.
  - destruct x as [a|], y as [b|], z as [c|]; simpl; try lia.
    destruct (lt a b) eqn:Hab, (lt b a) eqn:Hba; simpl; try lia.
    destruct (lt b c) eqn:Hbc, (lt c b) eqn:Hcb; simpl; try lia.
    intros _ _. rewrite (lt_trans _ _ _ Hab Hbc).
    rewrite (lt_asym lt lt_irrefl lt_trans _ _ (lt_trans _ _ _ Hab Hbc)). done.
Qed.

Lemma cmp_three_way_witness :
  helpers.cmp Z.ltb (Some 2) None = - helpers.cmp Z.ltb None (Some 2) /\
  (helpers.cmp Z.ltb (Some 2) None = 0 <-> Some 2 = None) /\
  (helpers.cmp Z.ltb (Some 2) None < 0 -> False) /\
  (helpers.cmp Z.ltb (Some 2) None < 0 -> helpers.cmp Z.ltb None (Some 5) < 0 ->
   helpers.cmp Z.ltb (Some 2) (Some 5) < 0).
Proof.
  apply (cmp_three_way Z.ltb).
  - intros a. apply Z.ltb_irrefl.
  - intros a b c. rewrite !Z.ltb_lt. lia.
  - intros a b. rewrite !Z.ltb_lt. lia.
Defined.

(** ** [latinToAscii] *)

Lemma latinToAscii_from (r unicrap : list Z) :
  foldl (fun r i =>
           match helpers.xlate_get i with
           | Some replacement => r ++ helpers.codes replacement
           | None => if 128 <=? i then r else r ++ [i]
           end) r unicrap
  = r ++ concat (latin_piece <$> unicrap).
Proof.
  revert r. induction unicrap as [|i unicrap IH]; intros r; simpl.
  - by rewrite app_nil_r.
  - rewrite IH. unfold latin_piece.
    destruct (helpers.xlate_get i); [by rewrite <- app_assoc|].
    destruct (128 <=? i); [done|by rewrite <- app_assoc].
Qed.

Lemma latinToAscii_pieces (unicrap : list Z) :
  helpers.latinToAscii unicrap = concat (latin_piece <$> unicrap).
Proof. unfold helpers.latinToAscii. by rewrite latinToAscii_from. Qed.

Lemma latinToAscii_app (u v : list Z) :
  helpers.latinToAscii (u ++ v)
  = helpers.latinToAscii u ++ helpers.latinToAscii v.
Proof. by rewrite !latinToAscii_pieces, fmap_app, concat_app. Qed.

Lemma xlate_get_in (i : Z) (replacement : string) :
  helpers.xlate_get i = Some replacement -> (i, replacement) ∈ helpers.xlate.
Proof.
  unfold helpers.xlate_get. intros H.
  destruct (List.find _ _) as [[k s]|] eqn:Hfind; [|done].
  apply List.find_some in Hfind as [Hin Hk]. simpl in *.
  injection H as ->. apply Z.eqb_eq in Hk as ->. by apply list_elem_of_In.
Qed.

Lemma xlate_values_ascii :
  Forall (fun entry => Forall (fun c => c < 128) (helpers.codes entry.2))
         helpers.xlate.
Proof. apply (bool_decide_unpack _). vm_compute. exact I. Qed.

Lemma xlate_keys_high : Forall (fun entry => 128 <= entry.1) helpers.xlate.
Proof. apply (bool_decide_unpack _). vm_compute. exact I. Qed.

Lemma latin_piece_ascii (i : Z) : Forall (fun c => c < 128) (latin_piece i).
Proof.
  unfold latin_piece. destruct (helpers.xlate_get i) as [s|] eqn:Hget.
  - apply xlate_get_in in Hget.
    pose proof (proj1 (Forall_forall _ _) xlate_values_ascii _ Hget) as Hs.
    exact Hs.
  - destruct (128 <=? i) eqn:Hi; [constructor|].
    apply Z.leb_gt in Hi. by repeat constructor.
Qed.

Lemma latin_piece_low (i : Z) : i < 128 -> latin_piece i = [i].
Proof.
  intros Hi. unfold latin_piece.
  destruct (helpers.xlate_get i) as [s|] eqn:Hget.
  - apply xlate_get_in in Hget.
    pose proof (proj1 (Forall_forall _ _) xlate_keys_high _ Hget). simpl in *. lia.
  - by rewrite (proj2 (Z.leb_gt _ _) Hi).
Qed.

Lemma latinToAscii_ascii_out (unicrap : list Z) :
  Forall (fun c => c < 128) (helpers.latinToAscii unicrap).
Proof.
  rewrite latinToAscii_pieces. induction unicrap as [|i unicrap IH].
  - constructor.
  - rewrite fmap_cons. cbn [concat].
    apply Forall_app. split; [apply latin_piece_ascii|exact IH].
Qed.

Lemma latinToAscii_ascii_fixed (unicrap : list Z) :
  Forall (fun c => c < 128) unicrap -> helpers.latinToAscii unicrap = unicrap.
Proof.
  rewrite latinToAscii_pieces. induction 1 as [|i unicrap Hi _ IH].
  - done.
  - rewrite fmap_cons. cbn [concat]. by rewrite (latin_piece_low _ Hi), IH.
Qed.

(** X20.  What [latinToAscii] returns is plain ASCII: every character of
    the answer is below 0x80, whatever the input holds, and so a second
    pass changes nothing. *)
Theorem latinToAscii_is_ascii (unicrap : list Z) :
  Forall (fun c => c < 128) (helpers.latinToAscii unicrap) /\
  helpers.latinToAscii (helpers.latinToAscii unicrap)
  = helpers.latinToAscii unicrap.
Proof.
  split; [apply latinToAscii_ascii_out|].
  apply latinToAscii_ascii_fixed, latinToAscii_ascii_out.
Qed.

(** X21.  [latinToAscii] leaves ASCII alone and works character by
    character: a text with no character from 0x80 on is returned as it
    is, and in front of or behind any other text it comes through
    unchanged while the other text is translated on its own. *)
Theorem latinToAscii_keeps_ascii (u v : list Z) :
  Forall (fun c => c < 128) u ->
  helpers.latinToAscii u = u /\
  helpers.latinToAscii (u ++ v) = u ++ helpers.latinToAscii v /\
  helpers.latinToAscii (v ++ u) = helpers.latinToAscii v ++ u.
Proof.
  intros Hu. rewrite !latinToAscii_app, (latinToAscii_ascii_fixed _ Hu). done.
Qed.

Lemma latinToAscii_keeps_ascii_witness :
  helpers.latinToAscii (helpers.codes "AC/DC") = helpers.codes "AC/DC" /\
  helpers.latinToAscii (helpers.codes "AC/DC" ++ [233; 8364])
  = helpers.codes "AC/DC" ++ helpers.latinToAscii [233; 8364] /\
  helpers.latinToAscii ([233; 8364] ++ helpers.codes "AC/DC")
  = helpers.latinToAscii [233; 8364] ++ helpers.codes "AC/DC".
Proof.
  apply (latinToAscii_keeps_ascii (helpers.codes "AC/DC") [233; 8364]).
  apply (bool_decide_unpack _). vm_compute. exact I.
Defined.

(** ** [replace_illegal_chars] *)

Lemma sub_class_length class repl s :
  length (helpers.sub_class class repl s) = length s.
Proof. apply length_fmap. Qed.

Lemma sub_class_clean class repl s :
  repl ∉ class -> Forall (fun c => c ∉ class) (helpers.sub_class class repl s).
Proof.
  intros Hrepl. unfold helpers.sub_class. apply Forall_fmap, Forall_forall.
  intros c _. simpl. by case_bool_decide.
Qed.

Lemma sub_class_fixed class repl s :
  Forall (fun c => c ∉ class) s -> helpers.sub_class class repl s = s.
Proof.
  induction 1 as [|c s Hc _ IH]; [done|].
  unfold helpers.sub_class in *. rewrite fmap_cons, IH.
  by rewrite bool_decide_eq_false_2.
Qed.

Lemma folder_class_in_file_class c :
  c ∈ helpers.folder_class -> c ∈ helpers.file_class.
Proof.
  unfold helpers.folder_class, helpers.file_class.
  rewrite !elem_of_cons, !elem_of_nil. tauto.
Qed.

Lemma underscore_legal : helpers.underscore ∉ helpers.file_class.
Proof. apply (bool_decide_unpack _). vm_compute. exact I. Qed.

Lemma file_is_not_folder : helpers.codes "file" <> helpers.codes "folder".
Proof. apply (bool_decide_unpack _). vm_compute. exact I. Qed.

Lemma replace_illegal_chars_as_file (s : list Z) :
  helpers.replace_illegal_chars s (helpers.codes "file")
  = helpers.sub_class helpers.file_class helpers.underscore s.
Proof.
  unfold helpers.replace_illegal_chars.
  rewrite (bool_decide_eq_false_2 _ file_is_not_folder).
  by rewrite (bool_decide_eq_true_2 _ (eq_refl (helpers.codes "file"))).
Qed.

Lemma replace_illegal_chars_as_folder (s : list Z) :
  helpers.replace_illegal_chars s (helpers.codes "folder")
  = helpers.sub_class helpers.folder_class helpers.underscore s.
Proof.
  unfold helpers.replace_illegal_chars.
  rewrite (bool_decide_eq_false_2 _ (not_eq_sym file_is_not_folder)).
  by rewrite (bool_decide_eq_true_2 _ (eq_refl (helpers.codes "folder"))).
Qed.

(** X22.  [replace_illegal_chars] for a file name: the answer is as long
    as the name, holds none of the eight characters of the file pattern,
    and is stable: cleaning it again, as a file or as a folder name,
    changes nothing. *)
Theorem replace_illegal_chars_file (s : list Z) :
  let r := helpers.replace_illegal_chars s (helpers.codes "file") in
  length r = length s /\
  Forall (fun c => c ∉ helpers.file_class) r /\
  helpers.replace_illegal_chars r (helpers.codes "file") = r /\
  helpers.replace_illegal_chars r (helpers.codes "folder") = r.
Proof.
  cbv zeta.
  rewrite replace_illegal_chars_as_folder, !replace_illegal_chars_as_file.
  assert (Forall (fun c => c ∉ helpers.file_class)
            (helpers.sub_class helpers.file_class helpers.underscore s))
    as Hclean by apply sub_class_clean, underscore_legal.
  split; [apply sub_class_length|split; [exact Hclean|split]].
  - by apply sub_class_fixed.
  - apply sub_class_fixed. eapply Forall_impl; [exact Hclean|].
    intros c Hc Hin. by apply Hc, folder_class_in_file_class.
Qed.

(** X23.  [replace_illegal_chars] for a folder name: the answer is as
    long as the name and holds none of the seven characters of the folder
    pattern; the slash is not one of them, so a name has a slash after the
    call exactly when it had one before. *)
Theorem replace_illegal_chars_folder (s : list Z) :
  let r := helpers.replace_illegal_chars s (helpers.codes "folder") in
  length r = length s /\
  Forall (fun c => c ∉ helpers.folder_class) r /\
  (47 ∈ s <-> 47 ∈ r).
Proof.
  cbv zeta. rewrite replace_illegal_chars_as_folder.
  split; [apply sub_class_length|split].
  - apply sub_class_clean. intros Hin.
    by apply underscore_legal, folder_class_in_file_class.
  - unfold helpers.sub_class. rewrite list_elem_of_fmap. split.
    + intros Hin. exists 47. split; [|done].
      rewrite bool_decide_eq_false_2; [done|].
      apply (bool_decide_unpack _). vm_compute. exact I.
    + intros (c & Hc & Hin). case_bool_decide; [done|]. by subst.
Qed.

(** X24.  A name without any character of the file pattern comes back
    unchanged from [replace_illegal_chars], whatever [type] is given. *)
Theorem replace_illegal_chars_keeps_legal (s type : list Z) :
  Forall (fun c => c ∉ helpers.file_class) s ->
  helpers.replace_illegal_chars s type = s.
Proof.
  intros Hs. unfold helpers.replace_illegal_chars.
  assert (helpers.sub_class helpers.file_class helpers.underscore s = s) as Hfile
    by by apply sub_class_fixed.
  assert (helpers.sub_class helpers.folder_class helpers.underscore s = s)
    as Hfolder.
  { apply sub_class_fixed. eapply Forall_impl; [exact Hs|].
    intros c Hc Hin. by apply Hc, folder_class_in_file_class. }
  repeat case_bool_decide; by rewrite ?Hfile, ?Hfolder.
Qed.

Lemma replace_illegal_chars_keeps_legal_witness :
  helpers.replace_illegal_chars (helpers.codes "01 - Intro.mp3")
    (helpers.codes "file")
  = helpers.codes "01 - Intro.mp3".
Proof.
  apply replace_illegal_chars_keeps_legal.
  apply (bool_decide_unpack _). vm_compute. exact I.
Defined.

(** ** [path_filter_patterns] *)

Section Paths.
Variable fnmatch : list Z -> list Z -> bool.
Variable patterns : list (list Z).

Lemma list_remove_first (kept rest : list (list Z)) (path : list Z) :
  path ∉ kept ->
  helpers.list_remove path (kept ++ path :: rest) = Ok (kept ++ rest).
Proof.
  induction kept as [|first kept IH]; intros Hnot; simpl.
  - by rewrite decide_True.
  - apply not_elem_of_cons in Hnot as [Hne Hnot].
    rewrite decide_False by done. by rewrite IH.
Qed.

Lemma filter_loop_run (copy kept : list (list Z)) (ignored : Z) :
  Forall (fun path => helpers.path_match_patterns fnmatch path patterns = false)
         kept ->
  helpers.filter_loop fnmatch patterns copy (kept ++ copy) ignored
  = Ok (kept ++ List.filter
                  (fun path =>
                     negb (helpers.path_match_patterns fnmatch path patterns))
                  copy,
        ignored + Z.of_nat (length (List.filter
                    (fun path =>
                       helpers.path_match_patterns fnmatch path patterns)
                    copy))).
Proof.
  revert kept ignored. induction copy as [|path copy IH]; intros kept n Hkept.
  - simpl. by rewrite Z.add_0_r.
  - cbn [helpers.filter_loop List.filter].
    destruct (helpers.path_match_patterns fnmatch path patterns) eqn:Hpath.
    + rewrite list_remove_first.
      * rewrite IH by done. cbn [negb length]. do 2 f_equal. lia.
      * intros Hin. pose proof (proj1 (Forall_forall _ _) Hkept _ Hin).
        simpl in *. congruence.
    + cbn [negb]. replace (kept ++ path :: copy) with ((kept ++ [path]) ++ copy)
        by by rewrite <- app_assoc.
      rewrite IH, <- app_assoc; [done|].
      apply Forall_app. split; [done|]. by repeat constructor.
Qed.
End Paths.

(** X25.  [path_filter_patterns] never fails and filters in place: for
    any [fnmatch], the call leaves in [paths] exactly the paths that match
    no pattern, in their order and with their repetitions, and returns the
    number of paths that matched.  (The loop removes by value while it
    runs over a copy; [list.remove] always finds its path.) *)
Theorem path_filter_patterns_filters
    (fnmatch : list Z -> list Z -> bool) (paths patterns : list (list Z)) :
  helpers.path_filter_patterns fnmatch paths patterns
  = Ok (List.filter
          (fun path => negb (helpers.path_match_patterns fnmatch path patterns))
          paths,
        Z.of_nat (length (List.filter
          (fun path => helpers.path_match_patterns fnmatch path patterns)
          paths))).
Proof.
  unfold helpers.path_filter_patterns.
  apply (filter_loop_run fnmatch patterns paths [] 0). constructor.
Qed.

(** ** [sab_sanitize_foldername] *)

Lemma lstrip_split (drop : Z -> bool) (s : list Z) :
  exists dropped, s = dropped ++ helpers.lstrip drop s.
Proof.
  induction s as [|c s [dropped IH]]; simpl.
  - by exists [].
  - destruct (drop c); [|by exists []].
    exists (c :: dropped). simpl. by f_equal.
Qed.

Lemma lstrip_head (drop : Z -> bool) (s : list Z) (c : Z) :
  head (helpers.lstrip drop s) = Some c -> drop c = false.
Proof.
  induction s as [|c' s IH]; simpl; [done|].
  destruct (drop c') eqn:Hc'; [done|]. simpl. congruence.
Qed.

Lemma rstrip_split (drop : Z -> bool) (s : list Z) :
  exists dropped, s = helpers.rstrip drop s ++ dropped.
Proof.
  destruct (lstrip_split drop (reverse s)) as [dropped Hsplit].
  exists (reverse dropped). unfold helpers.rstrip.
  by rewrite <- reverse_app, <- Hsplit, reverse_involutive.
Qed.

Lemma rstrip_last (drop : Z -> bool) (s : list Z) (c : Z) :
  last (helpers.rstrip drop s) = Some c -> drop c = false.
Proof. unfold helpers.rstrip. rewrite last_reverse. apply lstrip_head. Qed.

Lemma strip_split (drop : Z -> bool) (s : list Z) :
  exists before after, s = before ++ helpers.strip drop s ++ after.
Proof.
  destruct (lstrip_split drop s) as [before Hbefore].
  destruct (rstrip_split drop (helpers.lstrip drop s)) as [after Hafter].
  exists before, after. unfold helpers.strip. by rewrite <- Hafter.
Qed.

Lemma strip_ends (drop : Z -> bool) (s : list Z) (c : Z) :
  head (helpers.strip drop s) = Some c \/ last (helpers.strip drop s) = Some c ->
  drop c = false.
Proof.
  intros [Hhead|Hlast]; [|by apply rstrip_last in Hlast].
  apply (lstrip_head drop s). unfold helpers.strip in Hhead.
  destruct (rstrip_split drop (helpers.lstrip drop s)) as [after ->].
  by destruct (helpers.rstrip drop (helpers.lstrip drop s)).
Qed.

Lemma strip_Forall (P : Z -> Prop) (drop : Z -> bool) (s : list Z) :
  Forall P s -> Forall P (helpers.strip drop s).
Proof.
  destruct (strip_split drop s) as (before & after & Hs). intros HP.
  rewrite Hs in HP. by apply Forall_app in HP as [_ [HP _]%Forall_app].
Qed.

Lemma sanitize_char_legal (ch : Z) :
  helpers.sanitize_char ch ∉ helpers.FL_ILLEGAL.
Proof.
  unfold helpers.sanitize_char. case_bool_decide as Hch; [|done].
  unfold helpers.FL_ILLEGAL in Hch. rewrite !elem_of_cons, elem_of_nil in Hch.
  repeat (destruct Hch as [->|Hch];
          [apply (bool_decide_unpack _); vm_compute; exact I|]).
  done.
Qed.

Lemma sab_sanitize_foldername_inv
    (unidecode : list Z -> list Z) (name : option (list Z)) (folder : list Z) :
  helpers.sab_sanitize_foldername unidecode name = Some folder ->
  folder <> [] /\
  Forall (fun c => c ∉ helpers.FL_ILLEGAL) folder /\
  (forall c, head folder = Some c \/ last folder = Some c ->
             c <> helpers.dot /\ c <> helpers.space).
Proof.
  destruct name as [[|first name]|]; simpl; [done| |done].
  set (stripped := helpers.strip _ (_ <$> _)).
  intros [= <-].
  destruct stripped as [|c stripped'] eqn:Hstripped; cbn [nonempty].
  - split; [done|split].
    + apply (bool_decide_unpack _). vm_compute. exact I.
    + intros c. vm_compute. intros [[= <-]|[= <-]]; done.
  - rewrite <- Hstripped. split; [by rewrite Hstripped|split].
    + apply strip_Forall, Forall_fmap, Forall_forall.
      intros ch _. apply sanitize_char_legal.
    + intros ch Hch. apply strip_ends in Hch.
      apply bool_decide_eq_false in Hch.
      rewrite !not_elem_of_cons in Hch. tauto.
Qed.

(** X26.  [sab_sanitize_foldername] on a name that is not empty answers a
    folder name that is not empty, holds no character of [FL_ILLEGAL], and
    neither starts nor ends with a dot or a space, whatever [unidecode]
    made of the name. *)
Theorem sab_sanitize_foldername_safe
    (unidecode : list Z -> list Z) (name : list Z) :
  name <> [] ->
  exists folder,
    helpers.sab_sanitize_foldername unidecode (Some name) = Some folder /\
    folder <> [] /\
    Forall (fun c => c ∉ helpers.FL_ILLEGAL) folder /\
    (forall c, head folder = Some c \/ last folder = Some c ->
               c <> helpers.dot /\ c <> helpers.space).
Proof.
  intros Hname.
  destruct (helpers.sab_sanitize_foldername unidecode (Some name))
    as [folder|] eqn:Hfolder.
  - exists folder. split; [done|]. by eapply sab_sanitize_foldername_inv.
  - by destruct name.
Qed.

Lemma sab_sanitize_foldername_safe_witness :
  exists folder,
    helpers.sab_sanitize_foldername helpers.latinToAscii
      (Some (helpers.codes " AC/DC: Live. ")) = Some folder /\
    folder <> [] /\
    Forall (fun c => c ∉ helpers.FL_ILLEGAL) folder /\
    (forall c, head folder = Some c \/ last folder = Some c ->
               c <> helpers.dot /\ c <> helpers.space).
Proof.
  apply (sab_sanitize_foldername_safe helpers.latinToAscii
           (helpers.codes " AC/DC: Live. ")).
  vm_compute. discriminate.
Defined.

Lemma replace_char_length (old new : Z) (name : list Z) :
  length (helpers.replace_char old new name) = length name.
Proof. apply length_fmap. Qed.

Lemma replace_char_Forall (P : Z -> Prop) (old new : Z) (name : list Z) :
  P new -> Forall P name -> Forall P (helpers.replace_char old new name).
Proof.
  intros Hnew Hname. unfold helpers.replace_char.
  apply Forall_fmap. eapply Forall_impl; [exact Hname|].
  intros c Hc. simpl. by destruct (c =? old).
Qed.

Lemma replace_char_gone (old new : Z) (name : list Z) :
  new <> old -> Forall (fun c => c <> old) (helpers.replace_char old new name).
Proof.
  intros Hnew. unfold helpers.replace_char.
  apply Forall_fmap, Forall_forall. intros c _. simpl.
  destruct (c =? old) eqn:Hc; [done|]. by apply Z.eqb_neq.
Qed.

(** X27.  The renaming functions after the sanitizer: replacing the dots
    and then the spaces of a sanitized folder name keeps its length and
    leaves a name without dots, spaces and [FL_ILLEGAL] characters. *)
Theorem sab_renaming_after_sanitize
    (unidecode : list Z -> list Z) (name : option (list Z)) (folder : list Z) :
  helpers.sab_sanitize_foldername unidecode name = Some folder ->
  let renamed := helpers.sab_replace_spaces (helpers.sab_replace_dots folder) in
  length renamed = length folder /\
  Forall (fun c => c <> helpers.dot /\ c <> helpers.space /\
                   c ∉ helpers.FL_ILLEGAL) renamed.
Proof.
  intros (_ & Hlegal & _)%sab_sanitize_foldername_inv. cbv zeta.
  unfold helpers.sab_replace_spaces, helpers.sab_replace_dots.
  split; [by rewrite !replace_char_length|].
  rewrite !Forall_and. split; [|split].
  - apply replace_char_Forall; [done|]. by apply replace_char_gone.
  - by apply replace_char_gone.
  - assert (helpers.space ∉ helpers.FL_ILLEGAL) as Hspace
      by (apply (bool_decide_unpack _); vm_compute; exact I).
    assert (helpers.underscore ∉ helpers.FL_ILLEGAL) as Hunderscore
      by (apply (bool_decide_unpack _); vm_compute; exact I).
    by do 2 (apply replace_char_Forall; [done|]).
Qed.

Lemma sab_renaming_after_sanitize_witness :
  let renamed :=
    helpers.sab_replace_spaces
      (helpers.sab_replace_dots (helpers.codes "AC+DC- Live")) in
  length renamed = length (helpers.codes "AC+DC- Live") /\
  Forall (fun c => c <> helpers.dot /\ c <> helpers.space /\
                   c ∉ helpers.FL_ILLEGAL) renamed.
Proof.
  apply (sab_renaming_after_sanitize helpers.latinToAscii
           (Some (helpers.codes " AC/DC: Live. "))).
  vm_compute. reflexivity.
Defined.
